(** * Schema spell checker

    A shallow embedding of [tools/statvar_importer/schema/schema_spell_checker.py]
    and the properties of its tokenizer ([get_words]), its ignore policy
    ([should_ignore_spell_pv]), its node and corpus checkers
    ([spell_check_pvs], [spell_check_nodes]) and its dictionary builder
    ([get_spell_checker]). *)

From Stdlib Require Import String Ascii.
From stdpp Require Import gmap list sorting.

Local Open Scope N_scope.

(** ** Python strings

    A Python [str] is a sequence of Unicode code points.  A code point is an
    [N]; a string is a list of them.  Literals of the source are written with
    [py]. *)

Definition pystr : Type := list N.

Definition py (s : string) : pystr := List.map N_of_ascii (list_ascii_of_string s).

(** The character classes written out in the source's regular expressions
    are ranges of code points. *)

Definition in_range (lo hi c : N) : bool := (lo <=? c) && (c <=? hi).

(** [[A-Z]] *)
Definition is_AZ (c : N) : bool := in_range 65 90 c.
(** [[a-z]] *)
Definition is_az (c : N) : bool := in_range 97 122 c.
(** [[0-9]] *)
Definition is_09 (c : N) : bool := in_range 48 57 c.
(** [[A-Za-z]] *)
Definition is_AZaz (c : N) : bool := is_AZ c || is_az c.
(** [[A-Z0-9]] *)
Definition is_AZ09 (c : N) : bool := is_AZ c || is_09 c.

Definition SPACE : N := 32.
Definition DQUOTE : N := 34.
Definition HASH : N := 35.
Definition COMMA : N := 44.
Definition AT : N := 64.
Definition LETTER_E : N := 69.
Definition UNDERSCORE : N := 95.

(** [s.split(sep)] for a separator of one character: the pieces between the
    separators, empty pieces included. *)
Fixpoint split_on (sep : N) (s : pystr) : list pystr :=
  match s with
  | [] => [[]]
  | c :: s' =>
      if c =? sep then [] :: split_on sep s'
      else match split_on sep s' with
           | w :: ws => (c :: w) :: ws
           | [] => [[c]]
           end
  end.

(** [s[start:stop]] for [start <= stop <= len(s)]. *)
Definition slice (s : pystr) (start stop : nat) : pystr :=
  take (stop - start) (drop start s).

(** [sub in s] *)
Fixpoint startswith (sub s : pystr) : bool :=
  match sub, s with
  | [], _ => true
  | _ :: _, [] => false
  | a :: sub', c :: s' => (a =? c) && startswith sub' s'
  end.

Fixpoint contains (sub s : pystr) : bool :=
  startswith sub s ||
  match s with
  | [] => false
  | _ :: s' => contains sub s'
  end.

(** [sep.join(ws)] *)
Fixpoint join (sep : pystr) (ws : list pystr) : pystr :=
  match ws with
  | [] => []
  | [w] => w
  | w :: ws' => w ++ sep ++ join sep ws'
  end.

(** The order of [sorted] on strings: lexicographic on code points. *)
Fixpoint str_leb (a b : pystr) : bool :=
  match a, b with
  | [], _ => true
  | _ :: _, [] => false
  | x :: a', y :: b' => (x <? y) || ((x =? y) && str_leb a' b')
  end.

Definition str_le (a b : pystr) : Prop := str_leb a b = true.

#[global] Instance str_le_dec : RelDecision str_le.
Proof. intros a b. unfold str_le. apply _. Defined.

(** ** Exceptions *)

Inductive exn : Type :=
| IndexError
| AttributeError.

Inductive result (A : Type) : Type :=
| Ok (a : A)
| Raise (e : exn).
Arguments Ok {A} a.
Arguments Raise {A} e.

#[global] Instance result_ret : MRet result := fun _ a => Ok a.

#[global] Instance result_bind : MBind result := fun _ _ k m =>
  match m with
  | Ok a => k a
  | Raise e => Raise e
  end.

(** [s[0]] raises [IndexError] on the empty string. *)
Definition str_first (s : pystr) : result N :=
  match s with
  | [] => Raise IndexError
  | c :: _ => Ok c
  end.

(** ** What the module takes from outside *)

(** Python's Unicode tables, behind [str.isupper] and the word characters of
    [\b].  Below 128 they are the ASCII tables, written out in [isupper] and
    [isword]; above 128 they are taken as given. *)
Class UnicodeTables := {
  uni_isupper : N -> bool;
  uni_isword : N -> bool
}.

(** The command line flags the module defines and reads. *)
Record Flags := {
  flag_spell_allowlist : pystr;
  flag_spell_error_output : pystr;
  flag_spell_check_text_only : bool
}.

(** The collaborators imported by the module: values that are not strings
    and the builtin [str] on them, [pv_utils.is_valid_property],
    [strip_namespace], [file_util.file_get_matching], the flags and the
    path of the default allow list. *)
Class Collaborators := {
  obj : Type;
  builtin_str : obj -> pystr;
  is_valid_property : pystr -> bool;
  strip_namespace : pystr -> pystr;
  file_get_matching : pystr -> list pystr;
  _FLAGS : Flags;
  _DEFAULT_ALLOWLIST : pystr
}.

(** The [spellchecker] package: a checker is a value of [SpellChecker];
    loading words into its [word_frequency] gives the updated checker. *)
Class SpellCheckerLib := {
  SpellChecker : Type;
  SpellChecker_new : SpellChecker;
  load_text_file : pystr -> SpellChecker -> SpellChecker;
  load_words : list pystr -> SpellChecker -> SpellChecker;
  unknown : SpellChecker -> gset pystr -> gset pystr
}.

(** ** Data *)

(** The value of a property: a string, or some other object. *)
Inductive value `{Collaborators} : Type :=
| VStr (s : pystr)
| VObj (o : obj).

(** [str(value)] *)
Definition str `{Collaborators} (v : value) : pystr :=
  match v with
  | VStr s => s
  | VObj o => builtin_str o
  end.

(** [spell_allow_words] is a list of words or one comma separated string. *)
Inductive allow_words_t : Type :=
| AllowList (ws : list pystr)
| AllowStr (s : pystr).

(** Modelled from the spec: [ConfigMap] (config_map.py is not among the
    sources) is a set of recognised options, each one set or unset;
    [config.get(option, default)] is the value of a set option and
    [default] for an unset one, written [default d (option config)]
    below. *)
Record ConfigMap := {
  spell_check_props : option (list pystr);
  spell_check_ignore_props : option (list pystr);
  spell_check_text_only : option bool;
  spell_allowlist : option pystr;
  spell_allow_words : option allow_words_t;
  spell_check_output : option pystr
}.

(** [ConfigMap()] *)
Definition ConfigMap_new : ConfigMap :=
  {| spell_check_props := None;
     spell_check_ignore_props := None;
     spell_check_text_only := None;
     spell_allowlist := None;
     spell_allow_words := None;
     spell_check_output := None |}.

(** A [dict] with string keys, as the list of its items in insertion
    order. *)
Definition dict (V : Type) : Type := list (pystr * V).

(** [d[k] = v] *)
Fixpoint dict_set {V : Type} (k : pystr) (v : V) (d : dict V) : dict V :=
  match d with
  | [] => [(k, v)]
  | (k', v') :: d' =>
      if decide (k = k') then (k, v) :: d' else (k', v') :: dict_set k v d'
  end.

Definition dict_keys {V : Type} (d : dict V) : list pystr := d.*1.

(** properties ignored for spell check *)
Definition _DEFAULT_IGNORE_SPELL_PROPS : list pystr :=
  [ py "nameWithLanguage";
    py "url";
    py "descriptionUrl";
    py "license";
    py "sourceDataUrl";
    py "cachedSourceDataUrl";
    py "dataTransformationLogic";
    py "geoJsonCoordinates";
    py "geoJsonCoodinatesDP1";
    py "geoJsonCoodinatesDP2";
    py "geoJsonCoodinatesDP3";
    py "keyString" ].

Section Tokenizer.
Context `{UnicodeTables}.

(** [c.isupper()] for a string [c] of one character. *)
Definition isupper (c : N) : bool :=
  if c <? 128 then is_AZ c else uni_isupper c.

(** [\w] *)
Definition isword (c : N) : bool :=
  if c <? 128 then is_AZ c || is_az c || is_09 c || (c =? UNDERSCORE)
  else uni_isword c.

(** [re.sub('[^A-Za-z]', ' ', s)] *)
Definition sub_non_letters (s : pystr) : pystr :=
  List.map (fun c => if is_AZaz c then c else SPACE) s.

(** [[m.start() for m in re.finditer(p1 p2, w)]] for two character classes
    [p1] and [p2]: the matches are searched from left to right and do not
    overlap. *)
Fixpoint finditer2 (p1 p2 : N -> bool) (pos : nat) (w : pystr) : list nat :=
  match w with
  | c1 :: ((c2 :: rest) as tl) =>
      if p1 c1 && p2 c2
      then pos :: finditer2 p1 p2 (pos + 2) rest
      else finditer2 p1 p2 (pos + 1) tl
  | _ => []
  end.

(** [split_pos] of the loop over the raw tokens, for the pattern
    [[^A-Z]] followed by the class [second]. *)
Definition split_positions (second : N -> bool) (w : pystr) : list nat :=
  0%nat :: List.map (fun start => (start + 1)%nat)
                    (finditer2 (fun c => negb (is_AZ c)) second 0 w)
        ++ [length w].

(** The body of the loop over the raw tokens: the CamelCase pieces of [w]. *)
Definition camel_pieces (w : pystr) : list pystr :=
  let split_pos := split_positions is_AZ09 w in
  List.map (fun se => slice w se.1 se.2) (zip split_pos (tail split_pos)).

(** [len(w) >= 2 and not (w[0].isupper() and w[1].isupper())] *)
Definition is_text_word (w : pystr) : bool :=
  match w with
  | c0 :: c1 :: _ => negb (isupper c0 && isupper c1)
  | _ => false
  end.

(** The raw tokens: [value_str.split(' ')]. *)
Definition raw_tokens (value : pystr) : list pystr :=
  split_on SPACE (sub_non_letters value).

Definition get_words (value : pystr) : list pystr :=
  let words :=
    flat_map (fun w => match w with [] => [] | _ => camel_pieces w end)
             (raw_tokens value) in
  List.filter is_text_word words.

End Tokenizer.

(** ** Ignore policy *)

Section IgnorePolicy.
Context `{UnicodeTables} `{Collaborators}.

(** [\b] between two neighbours; [None] is an end of the string. *)
Definition word_boundary (prev next : option N) : bool :=
  xorb (from_option isword false prev) (from_option isword false next).

(** What is left of [[0-9]+\b] once a first digit [prev] is consumed: more
    digits, tried first, or the boundary here. *)
Fixpoint digits_then_boundary (prev : N) (s : pystr) : bool :=
  match s with
  | [] => word_boundary (Some prev) None
  | c :: s' =>
      (is_09 c && digits_then_boundary c s')
      || word_boundary (Some prev) (Some c)
  end.

(** A match of [\bE[0-9]+\b] that starts at the head of [s], [prev] being
    the character before it. *)
Definition match_E_digits (prev : option N) (s : pystr) : bool :=
  match s with
  | e :: d :: s' =>
      word_boundary prev (Some e) && (e =? LETTER_E) && is_09 d
      && digits_then_boundary d s'
  | _ => false
  end.

Fixpoint search_E_digits_from (prev : option N) (s : pystr) : bool :=
  match_E_digits prev s ||
  match s with
  | [] => false
  | c :: s' => search_E_digits_from (Some c) s'
  end.

(** [re.search(r'\bE[0-9]+\b', s)] finds a match. *)
Definition search_E_digits (s : pystr) : bool := search_E_digits_from None s.

(** [x in l] for a list or a set of strings. *)
Definition str_in (x : pystr) (l : list pystr) : bool := bool_decide (x ∈ l).

Definition should_ignore_spell_pv
    (prop : pystr) (value : value) (config : option ConfigMap) : result bool :=
  let config := default ConfigMap_new config in
  if bool_decide (prop = []) then Ok true else
  p0 ← str_first prop;
  if p0 =? HASH then Ok true else
  if negb (is_valid_property prop) then Ok true else
  let ignore_props :=
    default _DEFAULT_IGNORE_SPELL_PROPS (spell_check_ignore_props config) in
  if str_in prop ignore_props then Ok true else
  let spell_props := default [] (spell_check_props config) in
  if negb (bool_decide (spell_props = [])) && negb (str_in prop spell_props)
  then Ok true else
  match value with
  | VStr ((_ :: _) as value) =>
      if contains (py "dc/") value && negb (existsb isupper value)
      then Ok true else
      if bool_decide (AT ∈ value) then Ok true else
      let quoted_values_only :=
        default false (spell_check_text_only config) in
      unquoted ←
        (if quoted_values_only
         then v0 ← str_first value; Ok (negb (v0 =? DQUOTE))
         else Ok false);
      if (unquoted : bool) then Ok true else
      if search_E_digits value then Ok true else
      Ok false
  | _ => Ok false
  end.

End IgnorePolicy.

(** ** Node checker *)

(** Logging and the counters are sinks the functions only write to: no
    test of the source reads them, and they are left out. *)

(** The calls [spell_check_pvs] makes to the spell checker and to the
    tokenizer, one constructor for each call site of the source. *)
Inductive call : Type :=
| UnknownProp (prop : pystr)        (* spell_checker.unknown([prop]) *)
| GetWordsProp (prop : pystr)       (* get_words(prop) *)
| UnknownValue (value : pystr)      (* spell_checker.unknown([value]) *)
| GetWordsValue (value : pystr)     (* get_words(strip_namespace(value)) *)
| UnknownWords (ws : gset pystr).   (* spell_checker.unknown(pv_words) *)

(** The variables of [spell_check_pvs], and the calls made so far. *)
Record pvs_state := {
  misspelled_pvs : dict pystr;
  words_misspelled : gset pystr;
  calls : list call
}.

Section NodeChecker.
Context `{UnicodeTables} `{Collaborators} `{SpellCheckerLib}.

(** [sorted(ws)] for a set of strings. *)
Definition sorted (ws : gset pystr) : list pystr :=
  merge_sort str_le (elements ws).

Definition nonempty (ws : gset pystr) : bool := bool_decide (ws ≠ ∅).

(** [config.get(...)] on the [config] argument, which may be [None]. *)
Definition config_get {A : Type} (config : option ConfigMap)
    (field : ConfigMap -> option A) (d : A) : result A :=
  match config with
  | Some c => Ok (default d (field c))
  | None => Raise AttributeError
  end.

(** The words of the property, when the property is checked at all. *)
Definition prop_step (spell_checker : SpellChecker) (text_only : bool)
    (prop : pystr) : gset pystr * list call :=
  if negb text_only then
    if nonempty (unknown spell_checker {[ prop ]})
    then (list_to_set (get_words prop), [UnknownProp prop; GetWordsProp prop])
    else (∅, [UnknownProp prop])
  else (∅, []).

(** The words of the value. *)
Definition value_step (spell_checker : SpellChecker) (value : pystr)
    : gset pystr * list call :=
  if nonempty (unknown spell_checker {[ value ]})
  then (list_to_set (get_words (strip_namespace value)),
        [UnknownValue value; GetWordsValue value])
  else (∅, [UnknownValue value]).

(** [pv_words] of a pair that is not ignored. *)
Definition pv_words_of (spell_checker : SpellChecker) (text_only : bool)
    (prop : pystr) (value : value) : gset pystr :=
  (prop_step spell_checker text_only prop).1
  ∪ (value_step spell_checker (str value)).1.

(** [error_words] of a pair that is not ignored; nothing is asked when
    there are no words. *)
Definition error_words_of (spell_checker : SpellChecker) (text_only : bool)
    (prop : pystr) (value : value) : gset pystr :=
  let pv_words := pv_words_of spell_checker text_only prop value in
  if nonempty pv_words then unknown spell_checker pv_words else ∅.

(** One iteration of the loop of [spell_check_pvs]. *)
Definition spell_check_pv (spell_checker : SpellChecker)
    (config : option ConfigMap) (st : pvs_state) (pv : pystr * value)
    : result pvs_state :=
  let '(prop, value) := pv in
  ignored ← should_ignore_spell_pv prop value config;
  if (ignored : bool) then Ok st else
  text_only ← config_get config spell_check_text_only false;
  let '(prop_words, prop_calls) := prop_step spell_checker text_only prop in
  let value := str value in
  let '(value_words, value_calls) := value_step spell_checker value in
  let pv_words := prop_words ∪ value_words in
  let calls1 := calls st ++ prop_calls ++ value_calls in
  if nonempty pv_words then
    let error_words := unknown spell_checker pv_words in
    let calls2 := calls1 ++ [UnknownWords pv_words] in
    if nonempty error_words then
      Ok {| misspelled_pvs :=
              dict_set prop (join (py ", ") (sorted error_words))
                       (misspelled_pvs st);
            words_misspelled := words_misspelled st ∪ error_words;
            calls := calls2 |}
    else
      Ok {| misspelled_pvs := misspelled_pvs st;
            words_misspelled := words_misspelled st;
            calls := calls2 |}
  else
    Ok {| misspelled_pvs := misspelled_pvs st;
          words_misspelled := words_misspelled st;
          calls := calls1 |}.

Fixpoint spell_check_pvs_loop (spell_checker : SpellChecker)
    (config : option ConfigMap) (items : dict value) (st : pvs_state)
    : result pvs_state :=
  match items with
  | [] => Ok st
  | pv :: items' =>
      st' ← spell_check_pv spell_checker config st pv;
      spell_check_pvs_loop spell_checker config items' st'
  end.

(** The result holds [misspelled_pvs] and [words_misspelled], the pair the
    source returns, and the calls made on the way. *)
Definition spell_check_pvs (dcid : pystr) (node : dict value)
    (spell_checker : SpellChecker) (config : option ConfigMap)
    : result pvs_state :=
  spell_check_pvs_loop spell_checker config node
    {| misspelled_pvs := []; words_misspelled := ∅; calls := [] |}.

End NodeChecker.

(** ** Dictionary builder *)

Section DictionaryBuilder.
Context `{Collaborators} `{SpellCheckerLib}.

(** [if s:] for a string. *)
Definition str_truthy (s : pystr) : bool := negb (bool_decide (s = [])).

(** Returns the config for spell checker from flags. *)
Definition get_default_spell_config : ConfigMap :=
  {| spell_check_props := None;
     spell_check_ignore_props := Some _DEFAULT_IGNORE_SPELL_PROPS;
     spell_check_text_only :=
       if flag_spell_check_text_only _FLAGS then Some true else None;
     spell_allowlist :=
       if str_truthy (flag_spell_allowlist _FLAGS)
       then Some (flag_spell_allowlist _FLAGS) else None;
     spell_allow_words := None;
     spell_check_output :=
       if str_truthy (flag_spell_error_output _FLAGS)
       then Some (flag_spell_error_output _FLAGS) else None |}.

(** [if allow_words:] *)
Definition allow_words_truthy (a : allow_words_t) : bool :=
  match a with
  | AllowList ws => negb (bool_decide (ws = []))
  | AllowStr s => str_truthy s
  end.

(** The list given to [load_words]: a string is split at its commas. *)
Definition allow_words_list (a : allow_words_t) : list pystr :=
  match a with
  | AllowList ws => ws
  | AllowStr s => split_on COMMA s
  end.

(** The loop over [allow_files]. *)
Definition load_allow_files (allow_files : list pystr)
    (spell_checker : SpellChecker) : SpellChecker :=
  foldl (fun sc file => load_text_file file sc) spell_checker allow_files.

(** Returns a SpellChecker object. *)
Definition get_spell_checker (config : option ConfigMap) : SpellChecker :=
  let spell_checker := SpellChecker_new in
  let config := default get_default_spell_config config in
  let allowlist_file := default _DEFAULT_ALLOWLIST (spell_allowlist config) in
  let allow_words :=
    default (AllowList [py "dcs"; py "dcid"]) (spell_allow_words config) in
  let allow_files := file_get_matching allowlist_file in
  let spell_checker := load_allow_files allow_files spell_checker in
  if allow_words_truthy allow_words
  then load_words (allow_words_list allow_words) spell_checker
  else spell_checker.

End DictionaryBuilder.

(** ** Corpus checker *)

Section CorpusChecker.
Context `{UnicodeTables} `{Collaborators} `{SpellCheckerLib}.

(** The loop of [spell_check_nodes] over the nodes; [node_errors] is the
    dictionary built so far. *)
Fixpoint spell_check_nodes_loop (spell_checker : SpellChecker)
    (config : ConfigMap) (nodes : dict (dict value))
    (node_errors : dict (dict pystr)) : result (dict (dict pystr)) :=
  match nodes with
  | [] => Ok node_errors
  | (dcid, node) :: nodes' =>
      r ← spell_check_pvs dcid node spell_checker (Some config);
      spell_check_nodes_loop spell_checker config nodes'
        (if nonempty (words_misspelled r)
         then dict_set dcid (misspelled_pvs r) node_errors
         else node_errors)
  end.

(** Spell check property:values in MCF nodes. *)
Definition spell_check_nodes (nodes : dict (dict value))
    (config : option ConfigMap) (spell_checker : option SpellChecker)
    : result (dict (dict pystr)) :=
  let config := default ConfigMap_new config in
  let spell_checker :=
    default (get_spell_checker (Some config)) spell_checker in
  spell_check_nodes_loop spell_checker config nodes [].

End CorpusChecker.

(** ** The ignore policy as a list of rules *)

Section PolicyRules.
Context `{UnicodeTables} `{Collaborators}.

(** The ignore set in force: the configured one, or the default set when
    none is configured. *)
Definition effective_ignore_props (config : ConfigMap) : list pystr :=
  default _DEFAULT_IGNORE_SPELL_PROPS (spell_check_ignore_props config).

Definition configured_spell_props (config : ConfigMap) : list pystr :=
  default [] (spell_check_props config).

Definition text_only_enabled (config : ConfigMap) : bool :=
  default false (spell_check_text_only config).

(** The rules on the property alone. *)
Definition property_rules (config : ConfigMap) (prop : pystr) : Prop :=
  prop = [] \/
  head prop = Some HASH \/
  is_valid_property prop = false \/
  prop ∈ effective_ignore_props config \/
  (configured_spell_props config <> [] /\
   prop ∉ configured_spell_props config).

(** The rules on a value that is a string. *)
Definition value_rules (config : ConfigMap) (v : pystr) : Prop :=
  (contains (py "dc/") v = true /\ Forall (fun c => isupper c = false) v) \/
  AT ∈ v \/
  (text_only_enabled config = true /\ head v <> Some DQUOTE) \/
  search_E_digits v = true.

(** A property rule holds, or the value is a string and a value rule
    holds. *)
Definition exempt_for_any_string (config : ConfigMap) (prop : pystr)
    (value : value) : Prop :=
  property_rules config prop \/
  exists v, value = VStr v /\ value_rules config v.

(** A property rule holds, or the value is a string that is not empty and
    a value rule holds. *)
Definition exempt_for_nonempty_string (config : ConfigMap) (prop : pystr)
    (value : value) : Prop :=
  property_rules config prop \/
  exists v, value = VStr v /\ v <> [] /\ value_rules config v.

(** The same rules as tests. *)
Definition property_exempt (config : ConfigMap) (prop : pystr) : bool :=
  bool_decide (prop = [])
  || bool_decide (head prop = Some HASH)
  || negb (is_valid_property prop)
  || str_in prop (effective_ignore_props config)
  || (negb (bool_decide (configured_spell_props config = []))
      && negb (str_in prop (configured_spell_props config))).

Definition value_exempt (config : ConfigMap) (v : pystr) : bool :=
  (contains (py "dc/") v && negb (existsb isupper v))
  || bool_decide (AT ∈ v)
  || (text_only_enabled config && negb (bool_decide (head v = Some DQUOTE)))
  || search_E_digits v.

(** The answer of the whole policy. *)
Definition exempt (config : ConfigMap) (prop : pystr) (value : value) : bool :=
  property_exempt config prop
  || match value with
     | VStr ((_ :: _) as v) => value_exempt config v
     | _ => false
     end.

End PolicyRules.

(** ** One iteration of the node checker, for a config that is not None *)

Definition is_prop_call (c : call) : bool :=
  match c with
  | UnknownProp _ | GetWordsProp _ => true
  | _ => false
  end.

Section NodeCheckerSteps.
Context `{UnicodeTables} `{Collaborators} `{SpellCheckerLib}.

(** The calls made for a pair that is not ignored. *)
Definition pv_calls_of (spell_checker : SpellChecker) (text_only : bool)
    (prop : pystr) (value : value) : list call :=
  (prop_step spell_checker text_only prop).2
  ++ (value_step spell_checker (str value)).2
  ++ (let pv_words := pv_words_of spell_checker text_only prop value in
      if nonempty pv_words then [UnknownWords pv_words] else []).

(** The entry stored for a property with the error words [ws]. *)
Definition error_entry (ws : gset pystr) : pystr := join (py ", ") (sorted ws).

(** The state after the iteration for the pair [pv]. *)
Definition pv_step (spell_checker : SpellChecker) (config : ConfigMap)
    (st : pvs_state) (pv : pystr * value) : pvs_state :=
  if exempt config pv.1 pv.2 then st else
  let text_only := text_only_enabled config in
  let error_words := error_words_of spell_checker text_only pv.1 pv.2 in
  {| misspelled_pvs :=
       if nonempty error_words
       then dict_set pv.1 (error_entry error_words) (misspelled_pvs st)
       else misspelled_pvs st;
     words_misspelled := words_misspelled st ∪ error_words;
     calls := calls st ++ pv_calls_of spell_checker text_only pv.1 pv.2 |}.

(** The pairs of the node that the policy lets through and whose words the
    checker does not all know. *)
Definition has_errors (spell_checker : SpellChecker) (config : ConfigMap)
    (prop : pystr) (value : value) : Prop :=
  should_ignore_spell_pv prop value (Some config) = Ok false /\
  error_words_of spell_checker (text_only_enabled config) prop value <> ∅.

(** The calls that check the string [v] of a value. *)
Definition value_call (v : pystr) (c : call) : Prop :=
  c = UnknownValue v \/
  c = GetWordsValue v \/
  c = UnknownWords (list_to_set (get_words (strip_namespace v))).

End NodeCheckerSteps.

(** ** A small world to run the definitions in

    ASCII-only Unicode tables; property names that start with a lower case
    letter; a namespace stripper that removes a leading [dcid:]; no file on
    disk; a spell checker that knows a set of words, case sensitively. *)

Definition ascii_tables : UnicodeTables :=
  {| uni_isupper := fun _ => false; uni_isword := fun _ => false |}.

Definition demo_flags : Flags :=
  {| flag_spell_allowlist := py "words_allowlist.txt";
     flag_spell_error_output := [];
     flag_spell_check_text_only := false |}.

Definition demo_collaborators : Collaborators :=
  {| obj := unit;
     builtin_str := fun _ => py "None";
     is_valid_property := fun p =>
       match p with c :: _ => is_az c | [] => false end;
     strip_namespace := fun v =>
       if startswith (py "dcid:") v then drop 5 v else v;
     file_get_matching := fun _ => [];
     _FLAGS := demo_flags;
     _DEFAULT_ALLOWLIST := py "words_allowlist.txt" |}.

Definition demo_spellchecker : SpellCheckerLib :=
  {| SpellChecker := gset pystr;
     SpellChecker_new := {[ py "name"; py "population"; py "count" ]};
     load_text_file := fun _ sc => sc;
     load_words := fun ws sc => sc ∪ list_to_set ws;
     unknown := fun sc ws => filter (fun w => w ∉ sc) ws |}.

Definition text_only_config : ConfigMap :=
  {| spell_check_props := None;
     spell_check_ignore_props := None;
     spell_check_text_only := Some true;
     spell_allowlist := None;
     spell_allow_words := None;
     spell_check_output := None |}.

Definition demo_node : dict (@value demo_collaborators) :=
  [ (py "name", VStr (py "Populaton Count"));
    (py "url", VStr (py "http://example.org"));
    (py "count", VStr (py "dcid:Count")) ].

(** A node whose only value is a quoted text. *)
Definition demo_text_node : dict (@value demo_collaborators) :=
  [ (py "name", VStr (DQUOTE :: py "Populaton Count" ++ [DQUOTE])) ].

(** ** Further definitions used to state properties *)

(** The positions [a], then those of [l], then [top], never decrease. *)
Fixpoint chain_le (a : nat) (l : list nat) (top : nat) : Prop :=
  match l with
  | [] => (a <= top)%nat
  | b :: l' => (a <= b)%nat /\ chain_le b l' top
  end.

(** [t] stands in [s]: Python's [t in s]. *)
Definition substring (t s : pystr) : Prop :=
  exists pre post, s = pre ++ t ++ post.

(** [config] with [spell_check_text_only] set to [True]. *)
Definition set_text_only (config : ConfigMap) : ConfigMap :=
  {| spell_check_props := spell_check_props config;
     spell_check_ignore_props := spell_check_ignore_props config;
     spell_check_text_only := Some true;
     spell_allowlist := spell_allowlist config;
     spell_allow_words := spell_allow_words config;
     spell_check_output := spell_check_output config |}.

(** [config] with [spell_allow_words] set to [a]. *)
Definition set_allow_words (a : allow_words_t) (config : ConfigMap) : ConfigMap :=
  {| spell_check_props := spell_check_props config;
     spell_check_ignore_props := spell_check_ignore_props config;
     spell_check_text_only := spell_check_text_only config;
     spell_allowlist := spell_allowlist config;
     spell_allow_words := Some a;
     spell_check_output := spell_check_output config |}.

(** A string value that is not empty and does not begin with a double
    quote. *)
Definition unquoted `{Collaborators} (value : value) : bool :=
  match value with
  | VStr (c :: _) => negb (c =? DQUOTE)
  | _ => false
  end.

Section Entries.
Context `{UnicodeTables} `{Collaborators} `{SpellCheckerLib}.

(** The entry a pair of the node gives to the per-property map, if any. *)
Definition pv_entry (spell_checker : SpellChecker) (config : ConfigMap)
    (pv : pystr * value) : option (pystr * pystr) :=
  if exempt config pv.1 pv.2 then None else
  let error_words :=
    error_words_of spell_checker (text_only_enabled config) pv.1 pv.2 in
  if nonempty error_words then Some (pv.1, error_entry error_words) else None.

(** The state [spell_check_pvs] starts from. *)
Definition pvs_state_new : pvs_state :=
  {| misspelled_pvs := []; words_misspelled := ∅; calls := [] |}.

(** The state [spell_check_pvs] ends in for a config that is not None. *)
Definition node_result (spell_checker : SpellChecker) (config : ConfigMap)
    (node : dict value) : pvs_state :=
  foldl (pv_step spell_checker config) pvs_state_new node.

(** The entry a node gives to the errors of [spell_check_nodes], if any. *)
Definition node_entry (spell_checker : SpellChecker) (config : ConfigMap)
    (dn : pystr * dict value) : option (pystr * dict pystr) :=
  let r := node_result spell_checker config dn.2 in
  if nonempty (words_misspelled r) then Some (dn.1, misspelled_pvs r) else None.

End Entries.

(** ** Checking MCF files *)

(** One value of [nodes_misspelled]. *)
Record spell_error := {
  err_file : pystr;
  err_dcid : pystr;
  err_property : pystr;
  err_spell_errors : pystr
}.

(** What [spell_check_mcf] returns, and what it writes: the name of the
    file and the dictionary saved in it, or nothing.  [nodes_misspelled] is
    keyed by [0], [1], ... in the order of insertion: it is the list of its
    values. *)
Record mcf_result := {
  mcf_records : list spell_error;
  mcf_written : option (pystr * list spell_error)
}.

(** [load_mcf_nodes], and [file_util.file_get_name(f, file_ext='')]. *)
Class McfFiles `{Collaborators} := {
  load_mcf_nodes : pystr -> dict (dict value);
  file_get_name : pystr -> pystr
}.

Section McfChecker.
Context `{UnicodeTables} `{Collaborators} `{SpellCheckerLib} `{!McfFiles}.

(** The two loops over [node_errors] and over each [error_pvs]. *)
Definition node_error_records (mcf_file : pystr)
    (node_errors : dict (dict pystr)) : list spell_error :=
  flat_map (fun de : pystr * dict pystr =>
              List.map (fun pe : pystr * pystr =>
                          {| err_file := mcf_file;
                             err_dcid := de.1;
                             err_property := pe.1;
                             err_spell_errors := pe.2 |})
                       de.2)
           node_errors.

(** The loop over [input_files]. *)
Fixpoint spell_check_mcf_loop (spell_checker : SpellChecker)
    (config : ConfigMap) (input_files : list pystr)
    (nodes_misspelled : list spell_error) : result (list spell_error) :=
  match input_files with
  | [] => Ok nodes_misspelled
  | mcf_file :: input_files' =>
      let nodes := load_mcf_nodes mcf_file in
      node_errors ←
        spell_check_nodes nodes (Some config) (Some spell_checker);
      spell_check_mcf_loop spell_checker config input_files'
        (nodes_misspelled ++ node_error_records mcf_file node_errors)
  end.

(** Spell checks dictionary of schema nodes. *)
Definition spell_check_mcf (input_mcf : pystr) (config : option ConfigMap)
    : result mcf_result :=
  let config := default ConfigMap_new config in
  let spell_checker := get_spell_checker (Some config) in
  let input_files := file_get_matching input_mcf in
  nodes_misspelled ←
    spell_check_mcf_loop spell_checker config input_files [];
  let output_file := default [] (spell_check_output config) in
  Ok {| mcf_records := nodes_misspelled;
        mcf_written :=
          match nodes_misspelled with
          | [] => None
          | _ :: _ =>
              if str_truthy output_file
              then Some (file_get_name output_file, nodes_misspelled)
              else None
          end |}.

End McfChecker.

(** The small world with two files that match ["*.mcf"], each with one
    node. *)
Definition demo_collaborators_mcf : Collaborators :=
  {| obj := unit;
     builtin_str := fun _ => py "None";
     is_valid_property := fun p =>
       match p with c :: _ => is_az c | [] => false end;
     strip_namespace := fun v =>
       if startswith (py "dcid:") v then drop 5 v else v;
     file_get_matching := fun pattern =>
       if bool_decide (pattern = py "*.mcf")
       then [py "a.mcf"; py "b.mcf"] else [];
     _FLAGS := demo_flags;
     _DEFAULT_ALLOWLIST := py "words_allowlist.txt" |}.

Definition demo_mcf_files : @McfFiles demo_collaborators_mcf :=
  {| load_mcf_nodes := fun f =>
       if bool_decide (f = py "a.mcf")
       then [ (py "dc/1", [ (py "name", VStr (py "Populaton Count")) ]) ]
       else if bool_decide (f = py "b.mcf")
       then [ (py "dc/2", [ (py "name", VStr (py "Count")) ]) ]
       else [];
     file_get_name := fun f => f |}.

(** The nodes of the small world. *)
Definition demo_nodes : dict (dict (@value demo_collaborators)) :=
  [ (py "dc/1", demo_node); (py "dc/2", demo_text_node) ].

(** * Properties *)

(** ** Tokenizer *)

Section TokenizerFacts.
Context `{UnicodeTables}.

Lemma Forall_list_filter {A : Type} (P : A -> Prop) (f : A -> bool) (l : list A) :
  Forall P l -> Forall P (List.filter f l).
Proof.
  induction 1 as [|x l Hx Hl IH]; simpl; [constructor|].
  destruct (f x); [constructor|]; assumption.
Qed.

Lemma list_filter_holds {A : Type} (f : A -> bool) (l : list A) :
  Forall (fun x => f x = true) (List.filter f l).
Proof.
  induction l as [|x l IH]; simpl; [constructor|].
  destruct (f x) eqn:E; [constructor|]; assumption.
Qed.

Lemma sub_non_letters_chars (s : pystr) :
  Forall (fun c => is_AZaz c = true \/ c = SPACE) (sub_non_letters s).
Proof.
  induction s as [|c s IH]; simpl; constructor; [|exact IH].
  destruct (is_AZaz c) eqn:E; [left; exact E | right; reflexivity].
Qed.

(** The pieces of [split] hold characters of the string that are not the
    separator. *)
Lemma split_on_pieces (P : N -> Prop) (sep : N) (s : pystr) :
  Forall (fun c => P c \/ c = sep) s ->
  Forall (Forall P) (split_on sep s).
Proof.
  induction 1 as [|c s Hc Hs IH]; simpl.
  - repeat constructor.
  - destruct (N.eqb_spec c sep) as [->|Hne].
    + constructor; [constructor | exact IH].
    + destruct (split_on sep s) as [|w ws]; [repeat constructor; tauto|].
      inversion IH; subst. constructor; [constructor; tauto | assumption].
Qed.

Lemma raw_tokens_letters (value : pystr) :
  Forall (Forall (fun c => is_AZaz c = true)) (raw_tokens value).
Proof. apply split_on_pieces, sub_non_letters_chars. Qed.

Lemma slice_Forall (P : N -> Prop) (w : pystr) (a b : nat) :
  Forall P w -> Forall P (slice w a b).
Proof. intros Hw. unfold slice. apply Forall_take, Forall_drop, Hw. Qed.

Lemma camel_pieces_Forall (P : N -> Prop) (w : pystr) :
  Forall P w -> Forall (Forall P) (camel_pieces w).
Proof.
  intros Hw. unfold camel_pieces.
  apply List.Forall_map. apply Forall_forall. intros se _.
  apply slice_Forall, Hw.
Qed.

Lemma get_words_Forall (P : N -> Prop) (value : pystr) :
  Forall (Forall P) (raw_tokens value) ->
  Forall (Forall P) (get_words value).
Proof.
  intros Htok. unfold get_words. apply Forall_list_filter.
  apply List.Forall_flat_map. eapply Forall_impl; [exact Htok|].
  intros [|c w] Hw; [constructor|]. apply camel_pieces_Forall, Hw.
Qed.

Lemma letter_not_digit (c : N) : is_AZaz c = true -> is_09 c = false.
Proof.
  unfold is_AZaz, is_AZ, is_az, is_09, in_range.
  rewrite orb_true_iff, !andb_true_iff, andb_false_iff, !N.leb_le, !N.leb_gt.
  lia.
Qed.

Lemma finditer2_step (p1 p2 : N -> bool) (pos : nat) (c1 c2 : N) (rest : pystr) :
  finditer2 p1 p2 pos (c1 :: c2 :: rest) =
  if p1 c1 && p2 c2
  then pos :: finditer2 p1 p2 (pos + 2) rest
  else finditer2 p1 p2 (pos + 1) (c2 :: rest).
Proof. reflexivity. Qed.

(** [finditer2] only looks at the classes on the characters of the
    string. *)
Lemma finditer2_ext (p1 p2 p2' : N -> bool) (w : pystr) :
  Forall (fun c => p2 c = p2' c) w ->
  forall pos, finditer2 p1 p2 pos w = finditer2 p1 p2' pos w.
Proof.
  remember (length w) as n eqn:Hn. revert w Hn.
  induction n as [n IH] using lt_wf_ind. intros w Hn Hw pos.
  destruct w as [|c1 [|c2 rest]]; try reflexivity.
  inversion Hw as [|? ? _ Htl]; subst. inversion Htl as [|? ? Hc2 Hrest]; subst.
  rewrite !finditer2_step, Hc2. destruct (p1 c1 && p2' c2).
  - f_equal. eapply IH; [|reflexivity|exact Hrest]. simpl. lia.
  - eapply IH; [|reflexivity|exact Htl]. simpl. lia.
Qed.

Lemma is_text_word_spec (w : pystr) :
  is_text_word w = true ->
  (2 <= length w)%nat /\
  exists c0 c1 rest, w = c0 :: c1 :: rest /\ isupper c0 && isupper c1 = false.
Proof.
  destruct w as [|c0 [|c1 rest]]; simpl; try discriminate.
  intros Hw. split; [lia|]. exists c0, c1, rest. split; [reflexivity|].
  destruct (isupper c0 && isupper c1); [discriminate | reflexivity].
Qed.

(** C2: [get_words] maps ["geoStateId"] to the list ["geo"], ["State"],
    ["Id"], in this order, and ["GDP"] to the empty list. *)
Theorem get_words_examples :
  get_words (py "geoStateId") = [py "geo"; py "State"; py "Id"] /\
  get_words (py "GDP") = [].
Proof. split; reflexivity. Qed.

(** C3: every word returned by [get_words] has at least two characters, and
    its first two characters are not both uppercase. *)
Theorem get_words_length_and_acronyms (value : pystr) :
  Forall (fun w =>
            (2 <= length w)%nat /\
            exists c0 c1 rest,
              w = c0 :: c1 :: rest /\ isupper c0 && isupper c1 = false)
         (get_words value).
Proof.
  unfold get_words. eapply Forall_impl; [apply list_filter_holds|].
  intros w Hw. apply is_text_word_spec, Hw.
Qed.

(** C10: every word returned by [get_words] is made of ASCII letters only
    and holds no digit; the raw tokens hold no digit either, so on each of
    them the pattern [[^A-Z][A-Z0-9]] finds exactly the matches of
    [[^A-Z][A-Z]] and the digits of the class never take part in a split. *)
Theorem get_words_ascii_letters (value : pystr) :
  Forall (Forall (fun c => is_AZaz c = true)) (get_words value) /\
  Forall (Forall (fun c => is_09 c = false)) (get_words value) /\
  Forall (fun w =>
            Forall (fun c => is_09 c = false) w /\
            split_positions is_AZ09 w = split_positions is_AZ w)
         (raw_tokens value).
Proof.
  pose proof (raw_tokens_letters value) as Htok.
  assert (Hdig : Forall (Forall (fun c => is_09 c = false)) (raw_tokens value)).
  { eapply Forall_impl; [exact Htok|]. intros w Hw.
    eapply Forall_impl; [exact Hw|]. apply letter_not_digit. }
  split; [apply get_words_Forall, Htok|].
  split; [apply get_words_Forall, Hdig|].
  eapply Forall_impl; [exact Hdig|]. intros w Hw. split; [exact Hw|].
  unfold split_positions. do 3 f_equal.
  apply finditer2_ext. eapply Forall_impl; [exact Hw|].
  intros c Hc. unfold is_AZ09. rewrite Hc. apply orb_false_r.
Qed.

End TokenizerFacts.

(** ** Ignore policy *)

Section IgnorePolicyFacts.
Context `{UnicodeTables} `{Collaborators}.

Lemma startswith_spec (sub s : pystr) :
  startswith sub s = true <-> exists post, s = sub ++ post.
Proof.
  revert s. induction sub as [|a sub IH]; intros s; simpl.
  - split; [intros _; exists s; reflexivity | reflexivity].
  - destruct s as [|c s]; simpl.
    + split; [discriminate | intros [post Hp]; discriminate].
    + rewrite andb_true_iff, N.eqb_eq, IH. split.
      * intros [-> [post ->]]. exists post. reflexivity.
      * intros [post Hp]. injection Hp as -> ->. split; [reflexivity|].
        exists post. reflexivity.
Qed.

(** [contains] is Python's [sub in s]: [sub] occurs in [s]. *)
Lemma contains_spec (sub s : pystr) :
  contains sub s = true <-> exists pre post, s = pre ++ sub ++ post.
Proof.
  induction s as [|c s IH].
  - simpl. rewrite orb_false_r, startswith_spec. split.
    + intros [post Hp]. exists [], post. exact Hp.
    + intros [pre [post Hp]]. destruct pre; [|discriminate].
      exists post. exact Hp.
  - cbn [contains]. rewrite orb_true_iff, startswith_spec, IH. split.
    + intros [[post Hp]|[pre [post Hp]]].
      * exists [], post. exact Hp.
      * exists (c :: pre), post. rewrite Hp. reflexivity.
    + intros [[|c' pre] [post Hp]].
      * left. exists post. exact Hp.
      * right. injection Hp as -> ->. exists pre, post. reflexivity.
Qed.

Lemma existsb_isupper_false (v : pystr) :
  negb (existsb isupper v) = true <-> Forall (fun c => isupper c = false) v.
Proof.
  induction v as [|c v IH]; simpl.
  - split; [constructor | reflexivity].
  - rewrite negb_orb, andb_true_iff, IH, negb_true_iff. split.
    + intros [Hc Hv]. constructor; assumption.
    + intros Hcv. inversion Hcv; subst. split; assumption.
Qed.

Lemma property_exempt_spec (config : ConfigMap) (prop : pystr) :
  property_exempt config prop = true <-> property_rules config prop.
Proof.
  unfold property_exempt, property_rules, str_in.
  rewrite !orb_true_iff, andb_true_iff, !negb_true_iff,
    !bool_decide_eq_true, !bool_decide_eq_false.
  tauto.
Qed.

Lemma value_exempt_spec (config : ConfigMap) (v : pystr) :
  value_exempt config v = true <-> value_rules config v.
Proof.
  unfold value_exempt, value_rules.
  rewrite !orb_true_iff, !andb_true_iff, existsb_isupper_false,
    negb_true_iff, bool_decide_eq_true, bool_decide_eq_false.
  tauto.
Qed.

Lemma digits_then_boundary_spec (prev : N) (s : pystr) :
  digits_then_boundary prev s = true <->
  exists ds post,
    s = ds ++ post /\ Forall (fun c => is_09 c = true) ds /\
    word_boundary (last (prev :: ds)) (head post) = true.
Proof.
  revert prev. induction s as [|c s IH]; intros prev.
  - cbn [digits_then_boundary]. split.
    + intros Hb. exists [], []. repeat split; [constructor | exact Hb].
    + intros [ds [post [Hs [_ Hb]]]]. symmetry in Hs.
      apply app_eq_nil in Hs as [-> ->]. exact Hb.
  - cbn [digits_then_boundary]. rewrite orb_true_iff, andb_true_iff, IH. split.
    + intros [[Hc [ds [post [-> [Hds Hb]]]]]|Hb].
      * exists (c :: ds), post. repeat split; [constructor; assumption | exact Hb].
      * exists [], (c :: s). repeat split; [constructor | exact Hb].
    + intros [[|d ds] [post [Hs [Hds Hb]]]].
      * right. cbn [app] in Hs. subst post. exact Hb.
      * left. injection Hs as <- ->. inversion Hds; subst.
        split; [assumption|]. exists ds, post. repeat split; assumption.
Qed.

Lemma match_E_digits_spec (prev : option N) (s : pystr) :
  match_E_digits prev s = true <->
  exists ds post,
    s = LETTER_E :: ds ++ post /\ ds <> [] /\
    Forall (fun c => is_09 c = true) ds /\
    word_boundary prev (Some LETTER_E) = true /\
    word_boundary (last ds) (head post) = true.
Proof.
  destruct s as [|e [|d s]]; cbn [match_E_digits].
  - split; [discriminate | intros [ds [post [Hs _]]]; discriminate].
  - split; [discriminate|]. intros [[|d ds] [post [Hs [Hne _]]]];
      [contradiction | discriminate].
  - rewrite !andb_true_iff, N.eqb_eq, digits_then_boundary_spec. split.
    + intros [[[Hb ->] Hd] [ds [post [-> [Hds Hb']]]]].
      exists (d :: ds), post.
      repeat split; [discriminate | constructor; assumption | exact Hb | exact Hb'].
    + intros [[|d' ds] [post [Hs [Hne [Hds [Hb Hb']]]]]]; [contradiction|].
      injection Hs as -> <- ->. inversion Hds; subst.
      repeat split; try assumption. exists ds, post. repeat split; assumption.
Qed.

Lemma search_E_digits_from_spec (prev : option N) (s : pystr) :
  search_E_digits_from prev s = true <->
  exists pre ds post,
    s = pre ++ LETTER_E :: ds ++ post /\ ds <> [] /\
    Forall (fun c => is_09 c = true) ds /\
    word_boundary (last (option_list prev ++ pre)) (Some LETTER_E) = true /\
    word_boundary (last ds) (head post) = true.
Proof.
  revert prev. induction s as [|c s IH]; intros prev.
  - cbn [search_E_digits_from match_E_digits]. split; [discriminate|].
    intros [pre [ds [post [Hs _]]]]. destruct pre; discriminate.
  - cbn [search_E_digits_from]. rewrite orb_true_iff, match_E_digits_spec, IH.
    split.
    + intros [[ds [post [Hs [Hne [Hds [Hb Hb']]]]]]
             |[pre [ds [post [Hs [Hne [Hds [Hb Hb']]]]]]]].
      * exists [], ds, post. rewrite app_nil_r.
        repeat split; try assumption. destruct prev; exact Hb.
      * exists (c :: pre), ds, post. rewrite Hs.
        repeat split; try assumption.
        destruct prev as [p|]; [|exact Hb].
        change (word_boundary (last (c :: pre)) (Some LETTER_E) = true) in Hb.
        change (word_boundary (last (p :: c :: pre)) (Some LETTER_E) = true).
        rewrite last_cons. destruct (last (c :: pre)) eqn:Hl; [exact Hb|].
        apply last_None in Hl. discriminate.
    + intros [[|c' pre] [ds [post [Hs [Hne [Hds [Hb Hb']]]]]]].
      * left. exists ds, post. rewrite app_nil_r in Hb.
        repeat split; try assumption. destruct prev; exact Hb.
      * right. injection Hs as -> ->. exists pre, ds, post.
        repeat split; try assumption.
        destruct prev as [p|]; [|exact Hb].
        change (word_boundary (last (c' :: pre)) (Some LETTER_E) = true).
        change (word_boundary (last (p :: c' :: pre)) (Some LETTER_E) = true) in Hb.
        rewrite last_cons in Hb. destruct (last (c' :: pre)) eqn:Hl; [exact Hb|].
        apply last_None in Hl. discriminate.
Qed.

(** [search_E_digits] finds what [re.search(r'\bE[0-9]+\b', s)] finds: an
    [E] followed by a run of digits, with a word boundary before the [E]
    and after the digits. *)
Lemma search_E_digits_spec (s : pystr) :
  search_E_digits s = true <->
  exists pre ds post,
    s = pre ++ LETTER_E :: ds ++ post /\ ds <> [] /\
    Forall (fun c => is_09 c = true) ds /\
    word_boundary (last pre) (Some LETTER_E) = true /\
    word_boundary (last ds) (head post) = true.
Proof. apply (search_E_digits_from_spec None). Qed.

(** The source's chain of tests computes the disjunction of the rules; the
    value rules are reached for a string that is not empty only. *)
Lemma should_ignore_spell_pv_eq (prop : pystr) (value : value)
    (config : option ConfigMap) :
  should_ignore_spell_pv prop value config =
  Ok (property_exempt (default ConfigMap_new config) prop
      || match value with
         | VStr ((_ :: _) as v) => value_exempt (default ConfigMap_new config) v
         | _ => false
         end).
Proof.
  unfold should_ignore_spell_pv, property_exempt, effective_ignore_props,
    configured_spell_props.
  set (cfg := default ConfigMap_new config).
  destruct prop as [|p0 prop]; [reflexivity|].
  rewrite (bool_decide_eq_false_2 (p0 :: prop = [])) by discriminate.
  cbn [str_first mbind result_bind orb head].
  destruct (N.eqb_spec p0 HASH) as [->|Hp0].
  { rewrite bool_decide_eq_true_2 by reflexivity. reflexivity. }
  rewrite (bool_decide_eq_false_2 (Some p0 = Some HASH)) by congruence.
  cbn [orb].
  destruct (is_valid_property (p0 :: prop)); [|reflexivity]. cbn [negb orb].
  destruct (str_in (p0 :: prop) _); [reflexivity|]. cbn [orb].
  destruct (negb _ && negb _); [reflexivity|]. cbn [orb].
  destruct value as [[|v0 v]|o]; try reflexivity.
  unfold value_exempt, text_only_enabled.
  destruct (contains _ _ && negb _); [reflexivity|]. cbn [orb].
  destruct (bool_decide (_ ∈ _)); [reflexivity|]. cbn [orb].
  destruct (default false (spell_check_text_only cfg)).
  - cbn [str_first mbind result_bind head andb].
    destruct (N.eqb_spec v0 DQUOTE) as [->|Hv0].
    + rewrite bool_decide_eq_true_2 by reflexivity. cbn [negb orb].
      destruct (search_E_digits _); reflexivity.
    + rewrite (bool_decide_eq_false_2 (Some v0 = Some DQUOTE)) by congruence.
      reflexivity.
  - cbn [mbind result_bind andb orb].
    destruct (search_E_digits _); reflexivity.
Qed.

(** C1 (as amended): [should_ignore_spell_pv] always returns, and it
    returns true exactly when the property is empty, or begins with [#], or
    is not a valid property name, or is in the ignore set in force, or the
    configured [spell_check_props] is not empty and does not hold it, or
    the value is a string that is not empty and one of the four value rules
    holds; it returns false otherwise. *)
Theorem should_ignore_spell_pv_rules (prop : pystr) (value : value)
    (config : option ConfigMap) :
  (exists b, should_ignore_spell_pv prop value config = Ok b) /\
  (should_ignore_spell_pv prop value config = Ok true <->
   exempt_for_nonempty_string (default ConfigMap_new config) prop value) /\
  (should_ignore_spell_pv prop value config = Ok false <->
   ~ exempt_for_nonempty_string (default ConfigMap_new config) prop value).
Proof.
  rewrite should_ignore_spell_pv_eq.
  set (cfg := default ConfigMap_new config).
  assert (Hiff :
    property_exempt cfg prop
    || match value with
       | VStr ((_ :: _) as v) => value_exempt cfg v
       | _ => false
       end = true <-> exempt_for_nonempty_string cfg prop value).
  { unfold exempt_for_nonempty_string.
    rewrite orb_true_iff, property_exempt_spec.
    apply or_iff_compat_l. destruct value as [[|v0 v]|o].
    - split; [discriminate|]. intros [v [Hv [Hne _]]].
      injection Hv as <-. contradiction.
    - rewrite value_exempt_spec. split.
      + intros Hr. exists (v0 :: v). repeat split; [discriminate|exact Hr].
      + intros [v' [Hv [_ Hr]]]. injection Hv as <-. exact Hr.
    - split; [discriminate|]. intros [v [Hv _]]. discriminate. }
  split; [eexists; reflexivity|]. split.
  - rewrite <- Hiff. split; [intros [= ->]; reflexivity | intros ->; reflexivity].
  - rewrite <- Hiff. split.
    + intros [= ->]. discriminate.
    + intros Hb. f_equal. apply not_true_is_false, Hb.
Qed.

(** C9: for the empty string and for a value that is not a string,
    [should_ignore_spell_pv] decides on the property rules alone, whatever
    [spell_check_text_only] says; and it returns for every property, value
    and configuration, so [value[0]] is never taken of an empty string. *)
Theorem should_ignore_spell_pv_skips_value_rules (prop : pystr)
    (config : option ConfigMap) :
  (forall value, exists b, should_ignore_spell_pv prop value config = Ok b) /\
  (should_ignore_spell_pv prop (VStr []) config = Ok true <->
   property_rules (default ConfigMap_new config) prop) /\
  (should_ignore_spell_pv prop (VStr []) config = Ok false <->
   ~ property_rules (default ConfigMap_new config) prop) /\
  (forall o,
     (should_ignore_spell_pv prop (VObj o) config = Ok true <->
      property_rules (default ConfigMap_new config) prop) /\
     (should_ignore_spell_pv prop (VObj o) config = Ok false <->
      ~ property_rules (default ConfigMap_new config) prop)).
Proof.
  assert (Hb : forall b : bool, (Ok (b || false) = Ok true <-> b = true) /\
                                (Ok (b || false) = Ok false <-> b <> true)).
  { intros []; simpl; split; split; congruence. }
  split; [intros value; rewrite should_ignore_spell_pv_eq; eexists; reflexivity|].
  rewrite <- property_exempt_spec.
  split; [rewrite should_ignore_spell_pv_eq; apply Hb|].
  split; [rewrite should_ignore_spell_pv_eq; apply Hb|].
  intros o. rewrite <- property_exempt_spec, should_ignore_spell_pv_eq. apply Hb.
Qed.

End IgnorePolicyFacts.

(** ** Dictionaries *)

Section DictFacts.
Context {V : Type}.

Lemma dict_set_elem (k : pystr) (v : V) (d : dict V) (k' : pystr) (v' : V) :
  (k', v') ∈ dict_set k v d -> (k', v') = (k, v) \/ (k', v') ∈ d.
Proof.
  induction d as [|[k0 v0] d IH]; simpl.
  - rewrite list_elem_of_singleton. tauto.
  - destruct (decide (k = k0)) as [->|Hne]; rewrite !elem_of_cons; [tauto|].
    intros [Heq|Hin]; [tauto|]. destruct (IH Hin); tauto.
Qed.

Lemma dict_set_here (k : pystr) (v : V) (d : dict V) :
  (k, v) ∈ dict_set k v d.
Proof.
  induction d as [|[k0 v0] d IH]; simpl.
  - apply list_elem_of_singleton. reflexivity.
  - destruct (decide (k = k0)); [left | right; exact IH].
Qed.

Lemma dict_set_other (k : pystr) (v : V) (d : dict V) (k' : pystr) (v' : V) :
  k' <> k -> (k', v') ∈ d -> (k', v') ∈ dict_set k v d.
Proof.
  intros Hne. induction d as [|[k0 v0] d IH]; simpl; [easy|].
  rewrite elem_of_cons. destruct (decide (k = k0)) as [->|Hk].
  - intros [Heq|Hin]; [congruence | right; exact Hin].
  - intros [Heq|Hin]; [rewrite Heq; left | right; apply IH, Hin].
Qed.

Lemma dict_set_keys (k : pystr) (v : V) (d : dict V) (k' : pystr) :
  k' ∈ dict_keys (dict_set k v d) <-> k' = k \/ k' ∈ dict_keys d.
Proof.
  unfold dict_keys. induction d as [|[k0 v0] d IH]; simpl.
  - rewrite list_elem_of_singleton, elem_of_nil. tauto.
  - destruct (decide (k = k0)) as [->|Hk]; simpl; rewrite !elem_of_cons.
    + tauto.
    + rewrite IH. tauto.
Qed.

Lemma dict_set_not_nil (k : pystr) (v : V) (d : dict V) : dict_set k v d <> [].
Proof. destruct d as [|[k0 v0] d]; simpl; [|destruct (decide (k = k0))]; discriminate. Qed.

Lemma dict_keys_elem (d : dict V) (k : pystr) :
  k ∈ dict_keys d <-> exists v, (k, v) ∈ d.
Proof.
  unfold dict_keys. rewrite list_elem_of_fmap. split.
  - intros [[k0 v0] [-> Hin]]. exists v0. exact Hin.
  - intros [v Hin]. exists (k, v). split; [reflexivity | exact Hin].
Qed.

(** In a dictionary a key has one value. *)
Lemma dict_unique (d : dict V) (k : pystr) (v v' : V) :
  NoDup (dict_keys d) -> (k, v) ∈ d -> (k, v') ∈ d -> v = v'.
Proof.
  unfold dict_keys. induction d as [|[k0 v0] d IH]; simpl; [intros _ Hin; inversion Hin|].
  rewrite NoDup_cons, !elem_of_cons. intros [Hk0 Hnd] [Heq|Hin] [Heq'|Hin'].
  - congruence.
  - injection Heq as -> ->. exfalso. apply Hk0, list_elem_of_fmap.
    exists (k0, v'). split; [reflexivity | exact Hin'].
  - injection Heq' as -> ->. exfalso. apply Hk0, list_elem_of_fmap.
    exists (k0, v). split; [reflexivity | exact Hin].
  - apply IH; assumption.
Qed.

End DictFacts.

(** ** Sorting and joining *)

Lemma str_leb_total (a b : pystr) : str_leb a b = true \/ str_leb b a = true.
Proof.
  revert b. induction a as [|x a IH]; intros [|y b]; simpl; try tauto.
  destruct (N.ltb_spec x y); [tauto|]. destruct (N.ltb_spec y x); [tauto|].
  assert (x = y) as -> by lia. rewrite N.eqb_refl. simpl. apply IH.
Qed.

Lemma str_leb_trans (a b c : pystr) :
  str_leb a b = true -> str_leb b c = true -> str_leb a c = true.
Proof.
  revert b c. induction a as [|x a IH]; intros [|y b] [|z c]; simpl;
    try congruence.
  rewrite !orb_true_iff, !andb_true_iff, !N.ltb_lt, !N.eqb_eq.
  intros [Hxy|[-> Hab]] [Hyz|[-> Hbc]].
  - left. lia.
  - left. lia.
  - left. lia.
  - right. split; [reflexivity|]. eapply IH; eassumption.
Qed.

Lemma str_leb_antisym (a b : pystr) :
  str_leb a b = true -> str_leb b a = true -> a = b.
Proof.
  revert b. induction a as [|x a IH]; intros [|y b]; simpl; try congruence.
  rewrite !orb_true_iff, !andb_true_iff, !N.ltb_lt, !N.eqb_eq.
  intros [Hxy|[-> Hab]] [Hyx|[Heq Hba]]; try lia.
  f_equal. apply IH; assumption.
Qed.

#[local] Instance str_le_total : Total str_le.
Proof. intros a b. apply str_leb_total. Qed.

#[local] Instance str_le_trans : Transitive str_le.
Proof. intros a b c. apply str_leb_trans. Qed.

(** [sorted] lists the words of the set, each once, in increasing order. *)
Lemma sorted_spec (ws : gset pystr) :
  StronglySorted str_le (sorted ws) /\
  NoDup (sorted ws) /\
  forall w, w ∈ sorted ws <-> w ∈ ws.
Proof.
  unfold sorted. split; [apply StronglySorted_merge_sort; apply _|].
  split.
  - rewrite merge_sort_Permutation. apply NoDup_elements.
  - intros w. rewrite merge_sort_Permutation. apply elem_of_elements.
Qed.

Lemma sorted_nil (ws : gset pystr) : sorted ws = [] -> ws = ∅.
Proof.
  intros Hs. apply set_eq. intros w.
  rewrite <- (proj2 (proj2 (sorted_spec ws)) w), Hs.
  rewrite elem_of_nil. set_solver.
Qed.

Lemma join_nil (sep : pystr) (ws : list pystr) :
  sep <> [] -> join sep ws = [] -> ws = [] \/ ws = [[]].
Proof.
  intros Hsep. destruct ws as [|w [|w' ws]]; simpl.
  - tauto.
  - intros ->. tauto.
  - intros Hj. apply app_eq_nil in Hj as [_ Hj].
    apply app_eq_nil in Hj as [Hj _]. contradiction.
Qed.

(** ** Node checker *)

Section NodeCheckerFacts.
Context `{UnicodeTables} `{Collaborators} `{SpellCheckerLib}.

Lemma nonempty_true (ws : gset pystr) : nonempty ws = true <-> ws <> ∅.
Proof. apply bool_decide_eq_true. Qed.

Lemma nonempty_false (ws : gset pystr) : nonempty ws = false <-> ws = ∅.
Proof.
  unfold nonempty. rewrite bool_decide_eq_false. split.
  - intros Hn. destruct (decide (ws = ∅)); [assumption | contradiction].
  - intros -> Hn. apply Hn. reflexivity.
Qed.

Lemma should_ignore_spell_pv_exempt (prop : pystr) (value : value)
    (config : option ConfigMap) :
  should_ignore_spell_pv prop value config =
  Ok (exempt (default ConfigMap_new config) prop value).
Proof. apply should_ignore_spell_pv_eq. Qed.

(** With a config, an iteration never raises. *)
Lemma spell_check_pv_Some (spell_checker : SpellChecker) (config : ConfigMap)
    (st : pvs_state) (pv : pystr * value) :
  spell_check_pv spell_checker (Some config) st pv =
  Ok (pv_step spell_checker config st pv).
Proof.
  destruct pv as [prop value]. unfold spell_check_pv, pv_step.
  rewrite should_ignore_spell_pv_exempt. cbn [mbind result_bind from_option id fst snd].
  destruct (exempt config prop value); [reflexivity|].
  unfold config_get, error_words_of, pv_calls_of, pv_words_of, error_entry,
    text_only_enabled.
  cbn [mbind result_bind].
  destruct (prop_step _ _ prop) as [pw pc].
  destruct (value_step _ (str value)) as [vw vc]. cbn [fst snd].
  destruct (nonempty (pw ∪ vw)) eqn:Hpv.
  - destruct (nonempty (unknown spell_checker (pw ∪ vw))) eqn:Hew.
    + rewrite <- !app_assoc. reflexivity.
    + apply nonempty_false in Hew. rewrite Hew, union_empty_r_L, <- !app_assoc.
      destruct st; reflexivity.
  - rewrite union_empty_r_L, app_nil_r. destruct st; reflexivity.
Qed.

Lemma spell_check_pvs_loop_Some (spell_checker : SpellChecker)
    (config : ConfigMap) (items : dict value) (st : pvs_state) :
  spell_check_pvs_loop spell_checker (Some config) items st =
  Ok (foldl (pv_step spell_checker config) st items).
Proof.
  revert st. induction items as [|pv items IH]; intros st; simpl; [reflexivity|].
  rewrite spell_check_pv_Some. cbn [mbind result_bind]. apply IH.
Qed.

Lemma get_words_not_empty (value w : pystr) : w ∈ get_words value -> w <> [].
Proof.
  intros Hw. unfold get_words in Hw.
  eapply (proj1 (Forall_forall _ _) (list_filter_holds is_text_word _)) in Hw.
  destruct w; [discriminate Hw | discriminate].
Qed.

Lemma prop_step_words (spell_checker : SpellChecker) (text_only : bool)
    (prop w : pystr) :
  w ∈ (prop_step spell_checker text_only prop).1 -> w ∈ get_words prop.
Proof.
  unfold prop_step. destruct (negb text_only); [|set_solver].
  destruct (nonempty _); simpl; set_solver.
Qed.

Lemma value_step_words (spell_checker : SpellChecker) (value w : pystr) :
  w ∈ (value_step spell_checker value).1 ->
  w ∈ get_words (strip_namespace value).
Proof. unfold value_step. destruct (nonempty _); simpl; set_solver. Qed.

Lemma pv_words_not_empty (spell_checker : SpellChecker) (text_only : bool)
    (prop : pystr) (value : value) (w : pystr) :
  w ∈ pv_words_of spell_checker text_only prop value -> w <> [].
Proof.
  unfold pv_words_of. rewrite elem_of_union.
  intros [Hw|Hw]; eapply get_words_not_empty.
  - eapply prop_step_words, Hw.
  - eapply value_step_words, Hw.
Qed.

(** The entry stored for a set of error words is not the empty string, as
    long as the checker does not report an empty word for words that are
    not empty. *)
Lemma error_entry_not_empty (spell_checker : SpellChecker) (text_only : bool)
    (prop : pystr) (value : value) :
  (forall ws e, (forall w, w ∈ ws -> w <> []) ->
                e ∈ unknown spell_checker ws -> e <> []) ->
  error_words_of spell_checker text_only prop value <> ∅ ->
  error_entry (error_words_of spell_checker text_only prop value) <> [].
Proof.
  intros Hunknown Hne Hentry. unfold error_entry in Hentry.
  assert (Hsep : py ", " <> []) by (vm_compute; discriminate).
  apply (join_nil _ _ Hsep) in Hentry as [Hs|Hs].
  - apply Hne, sorted_nil, Hs.
  - assert (Hin : [] ∈ error_words_of spell_checker text_only prop value).
    { apply sorted_spec. rewrite Hs. apply list_elem_of_singleton. reflexivity. }
    unfold error_words_of in Hin.
    destruct (nonempty _); [|set_solver].
    eapply Hunknown; [|exact Hin|reflexivity].
    intros w. apply pv_words_not_empty.
Qed.

Lemma pv_step_entries (spell_checker : SpellChecker) (config : ConfigMap)
    (st : pvs_state) (pv : pystr * value) (p e : pystr) :
  (p, e) ∈ misspelled_pvs (pv_step spell_checker config st pv) ->
  (p, e) ∈ misspelled_pvs st \/
  (p = pv.1 /\ has_errors spell_checker config pv.1 pv.2 /\
   e = error_entry
         (error_words_of spell_checker (text_only_enabled config) pv.1 pv.2)).
Proof.
  unfold pv_step, has_errors. rewrite should_ignore_spell_pv_exempt.
  cbn [from_option id].
  destruct (exempt config pv.1 pv.2); [tauto|]. cbn [misspelled_pvs].
  destruct (nonempty _) eqn:Hew; [|tauto].
  intros Hin. apply dict_set_elem in Hin as [[= -> ->]|Hin]; [|tauto].
  right. apply nonempty_true in Hew. tauto.
Qed.

Lemma foldl_pv_step_entries (spell_checker : SpellChecker)
    (config : ConfigMap) (items : dict value) (st : pvs_state) (p e : pystr) :
  (p, e) ∈ misspelled_pvs (foldl (pv_step spell_checker config) st items) ->
  (p, e) ∈ misspelled_pvs st \/
  exists v, (p, v) ∈ items /\ has_errors spell_checker config p v /\
            e = error_entry
                  (error_words_of spell_checker (text_only_enabled config) p v).
Proof.
  revert st. induction items as [|[p0 v0] items IH]; intros st; simpl; [tauto|].
  intros Hin. apply IH in Hin as [Hin|[v [Hv Hr]]].
  - apply pv_step_entries in Hin as [Hin|[-> Hr]]; [tauto|].
    right. exists v0. split; [left | exact Hr].
  - right. exists v. split; [right; exact Hv | exact Hr].
Qed.

Lemma pv_step_keeps (spell_checker : SpellChecker) (config : ConfigMap)
    (st : pvs_state) (pv : pystr * value) (p e : pystr) :
  p <> pv.1 -> (p, e) ∈ misspelled_pvs st ->
  (p, e) ∈ misspelled_pvs (pv_step spell_checker config st pv).
Proof.
  intros Hne Hin. unfold pv_step.
  destruct (exempt config pv.1 pv.2); [exact Hin|]. cbn [misspelled_pvs].
  destruct (nonempty _); [|exact Hin]. apply dict_set_other; assumption.
Qed.

Lemma foldl_pv_step_keeps (spell_checker : SpellChecker) (config : ConfigMap)
    (items : dict value) (st : pvs_state) (p e : pystr) :
  p ∉ dict_keys items -> (p, e) ∈ misspelled_pvs st ->
  (p, e) ∈ misspelled_pvs (foldl (pv_step spell_checker config) st items).
Proof.
  revert st. induction items as [|[p0 v0] items IH]; intros st; simpl; [tauto|].
  unfold dict_keys. cbn [fmap list_fmap fst]. rewrite not_elem_of_cons.
  intros [Hne Hnin] Hin. apply IH; [exact Hnin|].
  apply pv_step_keeps; assumption.
Qed.

Lemma foldl_pv_step_stores (spell_checker : SpellChecker) (config : ConfigMap)
    (items : dict value) (st : pvs_state) (p : pystr) (v : value) :
  NoDup (dict_keys items) -> (p, v) ∈ items ->
  has_errors spell_checker config p v ->
  (p, error_entry
        (error_words_of spell_checker (text_only_enabled config) p v))
  ∈ misspelled_pvs (foldl (pv_step spell_checker config) st items).
Proof.
  revert st. induction items as [|[p0 v0] items IH]; intros st; simpl.
  { intros _ Hin. inversion Hin. }
  unfold dict_keys. cbn [fmap list_fmap fst]. rewrite NoDup_cons, elem_of_cons.
  intros [Hp0 Hnd] [[= -> ->]|Hin] Herr.
  - apply foldl_pv_step_keeps; [exact Hp0|].
    destruct Herr as [Hok Hne]. unfold pv_step. cbn [fst snd].
    rewrite should_ignore_spell_pv_exempt in Hok. cbn [from_option id] in Hok.
    injection Hok as Hex. rewrite Hex. cbn [misspelled_pvs].
    apply nonempty_true in Hne. rewrite Hne. apply dict_set_here.
  - apply IH; assumption.
Qed.

Lemma spell_check_pvs_Some (dcid : pystr) (node : dict value)
    (spell_checker : SpellChecker) (config : ConfigMap) :
  spell_check_pvs dcid node spell_checker (Some config) =
  Ok (foldl (pv_step spell_checker config)
            {| misspelled_pvs := []; words_misspelled := ∅; calls := [] |}
            node).
Proof. apply spell_check_pvs_loop_Some. Qed.

(** C4: with a config, [spell_check_pvs] returns, and the entries of its
    per-property map are exactly the pairs of a property of the node that is
    not ignored and has a set of unrecognized words that is not empty, with
    the words of this set, sorted and joined with [", "]; no entry is the
    empty string, and a property whose set of unrecognized words is empty
    has no entry.  The node is a dictionary (its keys are distinct), and the
    checker reports no empty word when it is asked about words that are not
    empty. *)
Theorem spell_check_pvs_entries (dcid : pystr) (node : dict value)
    (spell_checker : SpellChecker) (config : ConfigMap)
    (Hunknown : forall ws e, (forall w, w ∈ ws -> w <> []) ->
                             e ∈ unknown spell_checker ws -> e <> [])
    (Hnode : NoDup (dict_keys node)) :
  exists r,
    spell_check_pvs dcid node spell_checker (Some config) = Ok r /\
    (forall p e,
       (p, e) ∈ misspelled_pvs r <->
       exists v ws,
         (p, v) ∈ node /\
         should_ignore_spell_pv p v (Some config) = Ok false /\
         ws = error_words_of spell_checker (text_only_enabled config) p v /\
         ws <> ∅ /\
         e = join (py ", ") (sorted ws) /\
         StronglySorted str_le (sorted ws) /\
         (forall w, w ∈ sorted ws <-> w ∈ ws)) /\
    (forall p e, (p, e) ∈ misspelled_pvs r -> e <> []) /\
    (forall p v,
       (p, v) ∈ node ->
       error_words_of spell_checker (text_only_enabled config) p v = ∅ ->
       p ∉ dict_keys (misspelled_pvs r)).
Proof.
  eexists. split; [apply spell_check_pvs_Some|].
  set (r := foldl _ _ node).
  assert (Hentries : forall p e,
    (p, e) ∈ misspelled_pvs r ->
    exists v, (p, v) ∈ node /\ has_errors spell_checker config p v /\
      e = error_entry
            (error_words_of spell_checker (text_only_enabled config) p v)).
  { intros p e Hin. apply foldl_pv_step_entries in Hin as [Hin|Hin].
    - inversion Hin.
    - exact Hin. }
  split; [|split].
  - intros p e. split.
    + intros Hin. apply Hentries in Hin as [v [Hv [[Hok Hne] ->]]].
      exists v, (error_words_of spell_checker (text_only_enabled config) p v).
      repeat split; try assumption; apply sorted_spec.
    + intros [v [ws [Hv [Hok [-> [Hne [-> _]]]]]]].
      apply (foldl_pv_step_stores _ _ _ _ _ _ Hnode Hv). split; assumption.
  - intros p e Hin. apply Hentries in Hin as [v [Hv [[Hok Hne] ->]]].
    apply error_entry_not_empty; assumption.
  - intros p v Hv Hempty Hkey. apply dict_keys_elem in Hkey as [e Hin].
    apply Hentries in Hin as [v' [Hv' [[_ Hne] _]]].
    rewrite (dict_unique _ _ _ _ Hnode Hv' Hv) in Hne. contradiction.
Qed.

(** The node-level set of words is empty exactly when the per-property map
    is. *)
Lemma pv_step_words_iff (spell_checker : SpellChecker) (config : ConfigMap)
    (st : pvs_state) (pv : pystr * value) :
  (words_misspelled st = ∅ <-> misspelled_pvs st = []) ->
  (words_misspelled (pv_step spell_checker config st pv) = ∅ <->
   misspelled_pvs (pv_step spell_checker config st pv) = []).
Proof.
  intros Hst. unfold pv_step.
  destruct (exempt config pv.1 pv.2); [exact Hst|].
  cbn [words_misspelled misspelled_pvs].
  destruct (nonempty _) eqn:Hew.
  - apply nonempty_true in Hew. split.
    + intros Hu. apply empty_union_L in Hu as [_ Hu]. contradiction.
    + intros Hd. exfalso. eapply dict_set_not_nil, Hd.
  - apply nonempty_false in Hew. rewrite Hew, union_empty_r_L. exact Hst.
Qed.

Lemma foldl_pv_step_words_iff (spell_checker : SpellChecker)
    (config : ConfigMap) (items : dict value) (st : pvs_state) :
  (words_misspelled st = ∅ <-> misspelled_pvs st = []) ->
  (words_misspelled (foldl (pv_step spell_checker config) st items) = ∅ <->
   misspelled_pvs (foldl (pv_step spell_checker config) st items) = []).
Proof.
  revert st. induction items as [|pv items IH]; intros st Hst; simpl; [exact Hst|].
  apply IH, pv_step_words_iff, Hst.
Qed.

Lemma spell_check_pvs_words_iff (dcid : pystr) (node : dict value)
    (spell_checker : SpellChecker) (config : ConfigMap) :
  exists r,
    spell_check_pvs dcid node spell_checker (Some config) = Ok r /\
    (words_misspelled r = ∅ <-> misspelled_pvs r = []).
Proof.
  eexists. split; [apply spell_check_pvs_Some|].
  apply foldl_pv_step_words_iff. simpl. tauto.
Qed.

(** In text-only mode the calls made for a pair are calls on its value. *)
Lemma pv_calls_text_only (spell_checker : SpellChecker) (prop : pystr)
    (value : value) :
  Forall (value_call (str value)) (pv_calls_of spell_checker true prop value).
Proof.
  unfold pv_calls_of, pv_words_of, prop_step, value_step, value_call.
  cbn [negb fst snd app].
  destruct (nonempty (unknown _ _)); cbn [fst snd app];
    rewrite union_empty_l_L.
  - destruct (nonempty _); rewrite ?union_empty_l_L;
      repeat (apply Forall_cons_2; [naive_solver|]); apply Forall_nil_2.
  - replace (nonempty ∅) with false by reflexivity.
    repeat (apply Forall_cons_2; [naive_solver|]); apply Forall_nil_2.
Qed.

Lemma value_call_not_prop (v : pystr) (c : call) :
  value_call v c -> is_prop_call c = false.
Proof. intros [->|[->| ->]]; reflexivity. Qed.

Lemma foldl_pv_step_calls_text_only (spell_checker : SpellChecker)
    (config : ConfigMap) (Q : call -> Prop) (items : dict value)
    (st : pvs_state) :
  text_only_enabled config = true ->
  (forall p v c, (p, v) ∈ items ->
                 should_ignore_spell_pv p v (Some config) = Ok false ->
                 value_call (str v) c -> Q c) ->
  Forall Q (calls st) ->
  Forall Q (calls (foldl (pv_step spell_checker config) st items)).
Proof.
  intros Htext. revert st.
  induction items as [|[p0 v0] items IH]; intros st HQ Hst; simpl; [exact Hst|].
  apply IH.
  - intros p v c Hin. apply HQ. right. exact Hin.
  - unfold pv_step. cbn [fst snd].
    destruct (exempt config p0 v0) eqn:Hex; [exact Hst|]. cbn [calls].
    apply Forall_app. split; [exact Hst|]. rewrite Htext.
    eapply Forall_impl; [apply pv_calls_text_only|].
    intros c Hc. apply (HQ p0 v0 c); [left| |exact Hc].
    rewrite should_ignore_spell_pv_exempt. cbn [from_option id].
    rewrite Hex. reflexivity.
Qed.

(** C6 (as amended): when [spell_check_text_only] is set, [spell_check_pvs]
    makes no call on a property name: every call it makes to the checker or
    to the tokenizer is a call on the string of the value of a pair that is
    not ignored; and a string value that is not empty is let through by the
    policy only if it begins with a double quote. *)
Theorem spell_check_pvs_text_only (dcid : pystr) (node : dict value)
    (spell_checker : SpellChecker) (config : ConfigMap)
    (Htext : spell_check_text_only config = Some true) :
  exists r,
    spell_check_pvs dcid node spell_checker (Some config) = Ok r /\
    Forall (fun c => is_prop_call c = false) (calls r) /\
    Forall (fun c => exists p v,
                (p, v) ∈ node /\
                should_ignore_spell_pv p v (Some config) = Ok false /\
                value_call (str v) c)
           (calls r) /\
    (forall p s, s <> [] ->
                 should_ignore_spell_pv p (VStr s) (Some config) = Ok false ->
                 head s = Some DQUOTE).
Proof.
  assert (Hon : text_only_enabled config = true).
  { unfold text_only_enabled. rewrite Htext. reflexivity. }
  eexists. split; [apply spell_check_pvs_Some|].
  split; [|split].
  - apply foldl_pv_step_calls_text_only; [exact Hon| |constructor].
    intros p v c _ _. apply value_call_not_prop.
  - apply foldl_pv_step_calls_text_only; [exact Hon| |constructor].
    intros p v c Hin Hok Hc. exists p, v. tauto.
  - intros p s Hs. rewrite should_ignore_spell_pv_exempt.
    cbn [from_option id]. intros [= Hex]. unfold exempt in Hex.
    apply orb_false_iff in Hex as [_ Hex].
    destruct s as [|c s]; [contradiction|].
    unfold value_exempt in Hex. rewrite Hon in Hex.
    rewrite !orb_false_iff in Hex. destruct Hex as [[[_ _] Hq] _].
    cbn [andb] in Hq. apply negb_false_iff, bool_decide_eq_true in Hq.
    exact Hq.
Qed.

Lemma spell_check_pvs_loop_None (spell_checker : SpellChecker)
    (items : dict value) (st : pvs_state) :
  (exists p v, (p, v) ∈ items /\ should_ignore_spell_pv p v None = Ok false) ->
  spell_check_pvs_loop spell_checker None items st = Raise AttributeError.
Proof.
  revert st. induction items as [|[p0 v0] items IH]; intros st [p [v [Hin Hok]]].
  { inversion Hin. }
  cbn [spell_check_pvs_loop]. unfold spell_check_pv.
  destruct (should_ignore_spell_pv p0 v0 None) as [[|]|e] eqn:Hsi;
    cbn [mbind result_bind config_get].
  - apply IH. exists p, v. split; [|exact Hok].
    apply elem_of_cons in Hin as [[= -> ->]|Hin]; [congruence | exact Hin].
  - reflexivity.
  - rewrite should_ignore_spell_pv_exempt in Hsi. discriminate.
Qed.

(** C8: on a node with a pair that is not ignored, [spell_check_pvs] with
    its default [config=None] raises [AttributeError], where with an empty
    [ConfigMap] it returns; yet [should_ignore_spell_pv] answers for [None]
    as it does for an empty [ConfigMap]. *)
Theorem spell_check_pvs_config_None (dcid : pystr) (node : dict value)
    (spell_checker : SpellChecker)
    (Hpair : exists p v, (p, v) ∈ node /\
                         should_ignore_spell_pv p v None = Ok false) :
  spell_check_pvs dcid node spell_checker None = Raise AttributeError /\
  (exists r,
     spell_check_pvs dcid node spell_checker (Some ConfigMap_new) = Ok r) /\
  (forall p v,
     should_ignore_spell_pv p v None =
     should_ignore_spell_pv p v (Some ConfigMap_new)).
Proof.
  split; [apply spell_check_pvs_loop_None, Hpair|].
  split; [eexists; apply spell_check_pvs_Some|].
  reflexivity.
Qed.

End NodeCheckerFacts.

(** ** Corpus checker *)

Section CorpusCheckerFacts.
Context `{UnicodeTables} `{Collaborators} `{SpellCheckerLib}.

Lemma spell_check_nodes_loop_keys (spell_checker : SpellChecker)
    (config : ConfigMap) (nodes : dict (dict value))
    (node_errors : dict (dict pystr)) :
  exists node_errors',
    spell_check_nodes_loop spell_checker config nodes node_errors
    = Ok node_errors' /\
    forall dcid,
      dcid ∈ dict_keys node_errors' <->
      dcid ∈ dict_keys node_errors \/
      exists node r,
        (dcid, node) ∈ nodes /\
        spell_check_pvs dcid node spell_checker (Some config) = Ok r /\
        words_misspelled r <> ∅.
Proof.
  revert node_errors.
  induction nodes as [|[dcid0 node0] nodes IH]; intros node_errors.
  - exists node_errors. split; [reflexivity|]. intros dcid. split; [tauto|].
    intros [Hin|[node [r [Hin _]]]]; [exact Hin | inversion Hin].
  - cbn [spell_check_nodes_loop].
    pose proof (spell_check_pvs_Some dcid0 node0 spell_checker config) as Hr.
    set (r0 := foldl _ _ node0) in Hr. rewrite Hr. cbn [mbind result_bind].
    destruct (IH (if nonempty (words_misspelled r0)
                  then dict_set dcid0 (misspelled_pvs r0) node_errors
                  else node_errors)) as [errs [Heq Hkeys]].
    exists errs. split; [exact Heq|]. intros dcid. rewrite Hkeys. split.
    + intros [Hin|[node [r [Hin Hrest]]]].
      * destruct (nonempty (words_misspelled r0)) eqn:Hne; [|tauto].
        apply dict_set_keys in Hin as [->|Hin]; [|tauto].
        right. exists node0, r0. apply nonempty_true in Hne.
        split; [left|]. tauto.
      * right. exists node, r. split; [right; exact Hin | exact Hrest].
    + intros [Hin|[node [r [Hin [Hok Hne]]]]].
      * left. destruct (nonempty _); [apply dict_set_keys|]; tauto.
      * apply elem_of_cons in Hin as [[= -> ->]|Hin].
        -- left. rewrite Hr in Hok. injection Hok as <-.
           apply nonempty_true in Hne. rewrite Hne.
           apply dict_set_keys. tauto.
        -- right. exists node, r. tauto.
Qed.

(** C5: [spell_check_nodes] returns, and a dcid is a key of the errors it
    returns exactly when one of the nodes with this dcid has a node-level
    set of misspelled words that is not empty, which is the same as having
    an entry in its per-property map. *)
Theorem spell_check_nodes_keys (nodes : dict (dict value))
    (config : option ConfigMap) (spell_checker : option SpellChecker) :
  let config' := default ConfigMap_new config in
  let checker := default (get_spell_checker (Some config')) spell_checker in
  exists node_errors,
    spell_check_nodes nodes config spell_checker = Ok node_errors /\
    forall dcid,
      (dcid ∈ dict_keys node_errors <->
       exists node r,
         (dcid, node) ∈ nodes /\
         spell_check_pvs dcid node checker (Some config') = Ok r /\
         words_misspelled r <> ∅) /\
      (dcid ∈ dict_keys node_errors <->
       exists node r,
         (dcid, node) ∈ nodes /\
         spell_check_pvs dcid node checker (Some config') = Ok r /\
         exists p e, (p, e) ∈ misspelled_pvs r).
Proof.
  intros config' checker. unfold spell_check_nodes.
  destruct (spell_check_nodes_loop_keys checker config' nodes [])
    as [errs [Heq Hkeys]].
  exists errs. split; [exact Heq|]. intros dcid.
  assert (Hfirst :
    dcid ∈ dict_keys errs <->
    exists node r,
      (dcid, node) ∈ nodes /\
      spell_check_pvs dcid node checker (Some config') = Ok r /\
      words_misspelled r <> ∅).
  { rewrite Hkeys. split; [|tauto]. intros [Hin|Hex]; [inversion Hin | exact Hex]. }
  split; [exact Hfirst|]. rewrite Hfirst.
  split; intros [node [r [Hin [Hok Hne]]]]; exists node, r;
    (split; [exact Hin|]); (split; [exact Hok|]);
    destruct (spell_check_pvs_words_iff dcid node checker config')
      as [r' [Hok' Hiff]];
    rewrite Hok in Hok'; injection Hok' as <-.
  - destruct (misspelled_pvs r) as [|[p e] d] eqn:Hd.
    + exfalso. apply Hne, Hiff. reflexivity.
    + exists p, e. left.
  - destruct Hne as [p [e Hpe]]. intros Hw. apply Hiff in Hw.
    rewrite Hw in Hpe. inversion Hpe.
Qed.

End CorpusCheckerFacts.

(** ** Dictionary builder *)

Section DictionaryBuilderFacts.
Context `{Collaborators} `{SpellCheckerLib}.

(** C7 (as amended): when the allow-list path matches no file, no file is
    loaded: [get_spell_checker] returns the new checker with only the words
    of [spell_allow_words] loaded into it, which are ["dcs"] and ["dcid"]
    when the option is unset; it returns the new checker as it is when
    [spell_allow_words] is set to an empty list or string. *)
Theorem get_spell_checker_no_allow_files (config : option ConfigMap)
    (Hfiles :
       file_get_matching
         (default _DEFAULT_ALLOWLIST
            (spell_allowlist (default get_default_spell_config config)))
       = []) :
  let config' := default get_default_spell_config config in
  (forall a, spell_allow_words config' = Some a ->
             allow_words_truthy a = false ->
             get_spell_checker config = SpellChecker_new) /\
  (forall a, spell_allow_words config' = Some a ->
             allow_words_truthy a = true ->
             get_spell_checker config
             = load_words (allow_words_list a) SpellChecker_new) /\
  (spell_allow_words config' = None ->
   get_spell_checker config
   = load_words [py "dcs"; py "dcid"] SpellChecker_new).
Proof.
  intros config'. subst config'. unfold get_spell_checker. cbv zeta.
  rewrite Hfiles. cbn [load_allow_files foldl].
  split; [|split].
  - intros a -> Ha. cbn [from_option id]. rewrite Ha. reflexivity.
  - intros a -> Ha. cbn [from_option id]. rewrite Ha. reflexivity.
  - intros ->. reflexivity.
Qed.

End DictionaryBuilderFacts.

(** ** More on the tokenizer *)

Section TokenizerMore.
Context `{UnicodeTables}.

Lemma split_on_not_nil (sep : N) (s : pystr) : split_on sep s <> [].
Proof.
  destruct s as [|c s]; simpl; [discriminate|].
  destruct (c =? sep); [discriminate|].
  destruct (split_on sep s); discriminate.
Qed.

(** Splitting at a separator splits each side. *)
Lemma split_on_app_sep (sep : N) (a b : pystr) :
  split_on sep (a ++ sep :: b) = split_on sep a ++ split_on sep b.
Proof.
  induction a as [|c a IH]; simpl.
  - rewrite N.eqb_refl. reflexivity.
  - destruct (c =? sep); [rewrite IH; reflexivity|].
    rewrite IH. pose proof (split_on_not_nil sep a) as Hne.
    destruct (split_on sep a) as [|w ws]; [contradiction | reflexivity].
Qed.

Lemma split_on_no_sep (sep : N) (w : pystr) :
  Forall (fun c => c <> sep) w -> split_on sep w = [w].
Proof.
  induction 1 as [|c w Hc Hw IH]; simpl; [reflexivity|].
  destruct (N.eqb_spec c sep); [contradiction|]. rewrite IH. reflexivity.
Qed.

Lemma sub_non_letters_app (a b : pystr) :
  sub_non_letters (a ++ b) = sub_non_letters a ++ sub_non_letters b.
Proof. apply List.map_app. Qed.

Lemma sub_non_letters_letters (w : pystr) :
  Forall (fun c => is_AZaz c = true) w -> sub_non_letters w = w.
Proof.
  induction 1 as [|c w Hc Hw IH]; simpl; [reflexivity|].
  rewrite Hc. f_equal. exact IH.
Qed.

Lemma letter_not_space (c : N) : is_AZaz c = true -> c <> SPACE.
Proof. intros Hc ->. discriminate Hc. Qed.

(** The raw tokens of a string of letters: the string itself. *)
Lemma raw_tokens_letters_only (w : pystr) :
  Forall (fun c => is_AZaz c = true) w -> raw_tokens w = [w].
Proof.
  intros Hw. unfold raw_tokens. rewrite sub_non_letters_letters by exact Hw.
  apply split_on_no_sep. eapply Forall_impl; [exact Hw|].
  apply letter_not_space.
Qed.

(** X1: a character that is not a letter separates: the words of a string
    are the words of what is before such a character followed by the words
    of what is after it. *)
Theorem get_words_app_separator (a b : pystr) (c : N) :
  is_AZaz c = false ->
  get_words (a ++ c :: b) = get_words a ++ get_words b.
Proof.
  intros Hc. unfold get_words, raw_tokens.
  rewrite sub_non_letters_app. cbn [sub_non_letters List.map]. rewrite Hc.
  fold (sub_non_letters b). rewrite split_on_app_sep.
  rewrite List.flat_map_app, List.filter_app. reflexivity.
Qed.

Lemma split_on_all_sep (sep : N) (s : pystr) :
  Forall (fun c => c = sep) s -> Forall (fun w => w = []) (split_on sep s).
Proof.
  induction 1 as [|c s Hc Hs IH]; simpl; [repeat constructor|].
  subst c. rewrite N.eqb_refl. constructor; [reflexivity | exact IH].
Qed.

(** X2: a string without a letter, the empty string included, has no
    word. *)
Theorem get_words_no_letter (s : pystr) :
  Forall (fun c => is_AZaz c = false) s -> get_words s = [].
Proof.
  intros Hs. unfold get_words, raw_tokens.
  assert (Hsp : Forall (fun c => c = SPACE) (sub_non_letters s)).
  { induction Hs as [|c s Hc Hs IH]; simpl; constructor; [|exact IH].
    rewrite Hc. reflexivity. }
  apply split_on_all_sep in Hsp.
  induction Hsp as [|w ws Hw Hws IH]; simpl; [reflexivity|].
  subst w. exact IH.
Qed.

Lemma finditer2_no_first (p1 p2 : N -> bool) (w : pystr) (pos : nat) :
  Forall (fun c => p1 c = false) w -> finditer2 p1 p2 pos w = [].
Proof.
  intros Hw. revert pos. induction Hw as [|c1 w Hc1 Hw IH]; intros pos;
    [reflexivity|].
  destruct w as [|c2 rest]; [reflexivity|].
  rewrite finditer2_step, Hc1. apply IH.
Qed.

Lemma finditer2_no_second (p1 p2 : N -> bool) (w : pystr) (pos : nat) :
  Forall (fun c => p2 c = false) w -> finditer2 p1 p2 pos w = [].
Proof.
  intros Hw. revert pos. induction Hw as [|c1 w Hc1 Hw IH]; intros pos;
    [reflexivity|].
  destruct w as [|c2 rest]; [reflexivity|].
  rewrite finditer2_step. inversion Hw as [|? ? Hc2 _]; subst.
  rewrite Hc2, andb_false_r. apply IH.
Qed.

Lemma slice_all (w : pystr) : slice w 0 (length w) = w.
Proof. unfold slice. rewrite Nat.sub_0_r, drop_0. apply take_ge. lia. Qed.

(** A token in which the pattern finds no match is not split. *)
Lemma camel_pieces_no_match (w : pystr) :
  finditer2 (fun c => negb (is_AZ c)) is_AZ09 0 w = [] ->
  camel_pieces w = [w].
Proof.
  intros Hno. unfold camel_pieces, split_positions. rewrite Hno.
  cbn [List.map app tail zip zip_with fst snd]. rewrite slice_all. reflexivity.
Qed.

Lemma lower_facts (c : N) :
  is_az c = true ->
  is_AZaz c = true /\ is_AZ09 c = false /\ isupper c = false.
Proof.
  unfold is_AZaz, is_AZ09, isupper, is_AZ, is_az, is_09, in_range.
  rewrite andb_true_iff, !N.leb_le. intros [Hlo Hhi].
  assert (Hlt : (c <? 128) = true) by (apply N.ltb_lt; lia).
  assert (HAZ : (65 <=? c) && (c <=? 90) = false).
  { apply andb_false_iff. right. apply N.leb_gt. lia. }
  assert (H09 : (48 <=? c) && (c <=? 57) = false).
  { apply andb_false_iff. right. apply N.leb_gt. lia. }
  rewrite Hlt, HAZ, H09.
  assert (Haz : (97 <=? c) && (c <=? 122) = true).
  { apply andb_true_iff. rewrite !N.leb_le. lia. }
  rewrite Haz. repeat split.
Qed.

Lemma upper_facts (c : N) :
  is_AZ c = true -> is_AZaz c = true /\ isupper c = true.
Proof.
  unfold is_AZaz, isupper. intros Hc. rewrite Hc. split; [reflexivity|].
  unfold is_AZ, in_range in Hc. apply andb_true_iff in Hc as [_ Hhi].
  apply N.leb_le in Hhi.
  assert (Hlt : (c <? 128) = true) by (apply N.ltb_lt; lia).
  rewrite Hlt. reflexivity.
Qed.

(** X3: a word of two or more lower case letters is its own only word. *)
Theorem get_words_lowercase (w : pystr) :
  Forall (fun c => is_az c = true) w -> (2 <= length w)%nat ->
  get_words w = [w].
Proof.
  intros Hw Hlen. unfold get_words.
  rewrite raw_tokens_letters_only
    by (eapply Forall_impl; [exact Hw | intros c Hc; apply lower_facts, Hc]).
  destruct w as [|c0 [|c1 rest]]; simpl in Hlen; try lia.
  cbn [flat_map]. rewrite app_nil_r.
  rewrite camel_pieces_no_match.
  - cbn [List.filter is_text_word]. inversion Hw as [|? ? Hc0 _]; subst.
    apply lower_facts in Hc0 as [_ [_ Hc0]]. rewrite Hc0. reflexivity.
  - apply finditer2_no_second. eapply Forall_impl; [exact Hw|].
    intros c Hc. apply lower_facts, Hc.
Qed.

(** X4: a run of upper case letters, of any length, has no word. *)
Theorem get_words_uppercase (w : pystr) :
  Forall (fun c => is_AZ c = true) w -> get_words w = [].
Proof.
  intros Hw. unfold get_words.
  rewrite raw_tokens_letters_only
    by (eapply Forall_impl; [exact Hw | intros c Hc; apply upper_facts, Hc]).
  destruct w as [|c0 w]; [reflexivity|]. cbn [flat_map]. rewrite app_nil_r.
  rewrite camel_pieces_no_match.
  - destruct w as [|c1 rest]; [reflexivity|]. cbn [List.filter is_text_word].
    inversion Hw as [|? ? Hc0 Hw']; subst. inversion Hw' as [|? ? Hc1 _]; subst.
    apply upper_facts in Hc0 as [_ Hc0]. apply upper_facts in Hc1 as [_ Hc1].
    rewrite Hc0, Hc1. reflexivity.
  - apply finditer2_no_first. eapply Forall_impl; [exact Hw|].
    intros c Hc. rewrite Hc. reflexivity.
Qed.

End TokenizerMore.

(** ** The pieces of a token *)

Section CamelPieces.
Context `{UnicodeTables}.

Lemma slice_app (w : pystr) (a b c : nat) :
  (a <= b)%nat -> (b <= c)%nat -> slice w a b ++ slice w b c = slice w a c.
Proof.
  intros Hab Hbc. unfold slice.
  replace (drop b w) with (drop (b - a) (drop a w))
    by (rewrite drop_drop; f_equal; lia).
  rewrite take_take_drop. f_equal. lia.
Qed.

Lemma chain_le_bound (a : nat) (l : list nat) (top : nat) :
  chain_le a l top -> (a <= top)%nat.
Proof.
  revert a. induction l as [|b l IH]; intros a; simpl; [tauto|].
  intros [Hab Hb]. apply IH in Hb. lia.
Qed.

(** Consecutive slices at positions that never decrease put together give
    the slice from the first position to the last. *)
Lemma slices_concat (w : pystr) (l : list nat) (a top : nat) :
  chain_le a l top ->
  concat (List.map (fun se => slice w se.1 se.2)
                   (zip (a :: l ++ [top]) (l ++ [top])))
  = slice w a top.
Proof.
  revert a. induction l as [|b l IH]; intros a.
  - intros _. simpl. apply app_nil_r.
  - intros [Hab Hb].
    change (slice w a b
            ++ concat (List.map (fun se => slice w se.1 se.2)
                                (zip (b :: l ++ [top]) (l ++ [top])))
            = slice w a top).
    rewrite (IH b Hb). apply slice_app; [exact Hab|].
    apply (chain_le_bound _ _ _ Hb).
Qed.

(** The split positions of a token never decrease and stay within it. *)
Lemma finditer2_chain (p1 p2 : N -> bool) (w : pystr) :
  forall pos a,
    (a <= pos + 1)%nat -> (a <= pos + length w)%nat ->
    chain_le a (List.map (fun start => (start + 1)%nat)
                         (finditer2 p1 p2 pos w))
             (pos + length w).
Proof.
  remember (length w) as n eqn:Hn. revert w Hn.
  induction n as [n IH] using lt_wf_ind. intros w Hn pos a Ha1 Ha2.
  destruct w as [|c1 [|c2 rest]]; try (simpl; lia).
  rewrite finditer2_step. simpl in Hn. destruct (p1 c1 && p2 c2).
  - cbn [List.map chain_le]. split; [lia|].
    replace (pos + n)%nat with (pos + 2 + length rest)%nat by lia.
    eapply IH; [|reflexivity| |]; lia.
  - replace (pos + n)%nat with (pos + 1 + length (c2 :: rest))%nat
      by (simpl; lia).
    eapply IH; [|reflexivity| |]; simpl; lia.
Qed.

(** X5: the split loses nothing: the pieces of a token, put together in
    order, are the token. *)
Theorem camel_pieces_concat (w : pystr) : concat (camel_pieces w) = w.
Proof.
  unfold camel_pieces, split_positions. rewrite slices_concat.
  - apply slice_all.
  - apply (finditer2_chain _ _ w 0%nat 0%nat); lia.
Qed.

Lemma substring_trans (a b c : pystr) :
  substring a b -> substring b c -> substring a c.
Proof.
  intros [p1 [q1 ->]] [p2 [q2 ->]]. exists (p2 ++ p1), (q1 ++ q2).
  rewrite <- !app_assoc. reflexivity.
Qed.

Lemma slice_substring (w : pystr) (a b : nat) : substring (slice w a b) w.
Proof.
  exists (take a w), (drop (b - a) (drop a w)). unfold slice.
  rewrite take_drop, take_drop. reflexivity.
Qed.

Lemma split_on_first_prefix (sep : N) (s w : pystr) (ws : list pystr) :
  split_on sep s = w :: ws -> exists post, s = w ++ post.
Proof.
  revert w ws. induction s as [|c s IH]; intros w ws; simpl.
  - intros [= <- <-]. exists []. reflexivity.
  - destruct (c =? sep); [intros [= <- <-]; exists (c :: s); reflexivity|].
    destruct (split_on sep s) as [|w' ws'] eqn:Hs.
    + intros [= <- <-]. exists s. reflexivity.
    + intros [= <- <-]. destruct (IH w' ws' eq_refl) as [post ->].
      exists post. reflexivity.
Qed.

Lemma split_on_substring (sep : N) (s t : pystr) :
  t ∈ split_on sep s -> substring t s.
Proof.
  revert t. induction s as [|c s IH]; intros t; simpl.
  - rewrite list_elem_of_singleton. intros ->. exists [], []. reflexivity.
  - destruct (c =? sep).
    + rewrite elem_of_cons. intros [->|Hin].
      * exists [], (c :: s). reflexivity.
      * destruct (IH t Hin) as [pre [post ->]]. exists (c :: pre), post.
        reflexivity.
    + destruct (split_on sep s) as [|w ws] eqn:Hs.
      * rewrite list_elem_of_singleton. intros ->. exists [], s. reflexivity.
      * rewrite elem_of_cons. intros [->|Hin].
        -- destruct (split_on_first_prefix _ _ _ _ Hs) as [post ->].
           exists [], post. reflexivity.
        -- destruct (IH t) as [pre [post ->]]; [right; exact Hin|].
           exists (c :: pre), post. reflexivity.
Qed.

Lemma sub_non_letters_inv (t0 t : pystr) :
  sub_non_letters t0 = t -> Forall (fun c => is_AZaz c = true) t -> t0 = t.
Proof.
  intros <-. induction t0 as [|c t0 IH]; simpl; [reflexivity|].
  intros Ht. inversion Ht as [|? ? Hc Ht0]; subst. f_equal; [|apply IH, Ht0].
  destruct (is_AZaz c) eqn:Hl; [reflexivity | discriminate Hc].
Qed.

(** A raw token that holds letters only stands in the string itself. *)
Lemma raw_token_substring (value t : pystr) :
  t ∈ raw_tokens value -> substring t value.
Proof.
  intros Hin.
  assert (Hl : Forall (fun c => is_AZaz c = true) t).
  { pose proof (raw_tokens_letters value) as Hall.
    rewrite Forall_forall in Hall. apply Hall, Hin. }
  apply split_on_substring in Hin as [pre' [post' Hs]].
  unfold sub_non_letters in Hs.
  apply List.map_eq_app in Hs as [pre [rest [-> [_ Hs]]]].
  apply List.map_eq_app in Hs as [t0 [post [-> [Ht _]]]].
  apply sub_non_letters_inv in Ht; [|exact Hl]. subst t0.
  exists pre, post. reflexivity.
Qed.

(** X6: every word returned by [get_words] stands in the value as it is:
    the value is something, then the word, then something. *)
Theorem get_words_substrings (value : pystr) :
  Forall (fun w => exists pre post, value = pre ++ w ++ post) (get_words value).
Proof.
  unfold get_words. apply Forall_list_filter, List.Forall_flat_map.
  apply Forall_forall. intros t Ht. apply raw_token_substring in Ht.
  destruct t as [|c t]; [constructor|]. unfold camel_pieces.
  apply List.Forall_map, Forall_forall. intros se _.
  apply (substring_trans _ _ _ (slice_substring _ _ _) Ht).
Qed.

End CamelPieces.

(** ** More on the ignore policy and the node checker *)

Section NodeCheckerMore.
Context `{UnicodeTables} `{Collaborators} `{SpellCheckerLib}.

(** X7: setting [spell_check_text_only] ignores what was ignored before
    and, in addition, exactly the string values that are not empty and do
    not begin with a double quote. *)
Theorem should_ignore_spell_pv_text_only (prop : pystr) (value : value)
    (config : ConfigMap) :
  exists b,
    should_ignore_spell_pv prop value (Some config) = Ok b /\
    should_ignore_spell_pv prop value (Some (set_text_only config))
    = Ok (b || unquoted value).
Proof.
  exists (exempt config prop value).
  rewrite !should_ignore_spell_pv_exempt. cbn [from_option id].
  split; [reflexivity|]. f_equal. unfold exempt.
  replace (property_exempt (set_text_only config) prop)
    with (property_exempt config prop) by reflexivity.
  destruct (property_exempt config prop); [reflexivity|]. cbn [orb].
  destruct value as [[|c v]|o]; try reflexivity.
  unfold value_exempt, unquoted.
  replace (text_only_enabled (set_text_only config)) with true by reflexivity.
  cbn [andb head].
  destruct (contains _ _ && negb _); [reflexivity|]. cbn [orb].
  destruct (bool_decide (AT ∈ _)); [reflexivity|]. cbn [orb].
  destruct (N.eqb_spec c DQUOTE) as [->|Hc].
  - rewrite bool_decide_eq_true_2 by reflexivity.
    rewrite andb_false_r. cbn [negb orb]. rewrite orb_false_r. reflexivity.
  - rewrite (bool_decide_eq_false_2 (Some c = Some DQUOTE)) by congruence.
    cbn [negb]. rewrite andb_true_r.
    destruct (text_only_enabled config), (search_E_digits _); reflexivity.
Qed.

Lemma spell_check_pv_ignored (spell_checker : SpellChecker)
    (config : option ConfigMap) (st : pvs_state) (prop : pystr)
    (value : value) :
  should_ignore_spell_pv prop value config = Ok true ->
  spell_check_pv spell_checker config st (prop, value) = Ok st.
Proof. intros Hig. unfold spell_check_pv. rewrite Hig. reflexivity. Qed.

(** The pairs of a node that are not ignored. *)
Lemma spell_check_pvs_loop_filter (spell_checker : SpellChecker)
    (config : option ConfigMap) (items : dict value) (st : pvs_state) :
  spell_check_pvs_loop spell_checker config items st =
  spell_check_pvs_loop spell_checker config
    (List.filter
       (fun pv => negb (exempt (default ConfigMap_new config) pv.1 pv.2))
       items)
    st.
Proof.
  revert st. induction items as [|[p v] items IH]; intros st; [reflexivity|].
  cbn [List.filter fst snd].
  destruct (exempt (default ConfigMap_new config) p v) eqn:Hex; cbn [negb].
  - cbn [spell_check_pvs_loop]. rewrite spell_check_pv_ignored.
    + apply IH.
    + rewrite should_ignore_spell_pv_exempt, Hex. reflexivity.
  - cbn [spell_check_pvs_loop].
    destruct (spell_check_pv spell_checker config st (p, v)); [|reflexivity].
    cbn [mbind result_bind]. apply IH.
Qed.

(** X8: the pairs that the policy ignores can be taken out of the node:
    [spell_check_pvs] gives the same result, or raises the same error, on
    the node without them, for every config and for None. *)
Theorem spell_check_pvs_without_ignored (dcid : pystr) (node : dict value)
    (spell_checker : SpellChecker) (config : option ConfigMap) :
  spell_check_pvs dcid node spell_checker config =
  spell_check_pvs dcid
    (List.filter
       (fun pv => match should_ignore_spell_pv pv.1 pv.2 config with
                  | Ok true => false
                  | _ => true
                  end)
       node)
    spell_checker config.
Proof.
  unfold spell_check_pvs. rewrite spell_check_pvs_loop_filter. f_equal.
  apply List.filter_ext. intros [p v]. cbn [fst snd].
  rewrite should_ignore_spell_pv_exempt.
  destruct (exempt _ p v); reflexivity.
Qed.

(** X9: on a node whose pairs are all ignored, the empty node included,
    [spell_check_pvs] returns an empty map and an empty set and makes no
    call, for every config and for None. *)
Theorem spell_check_pvs_all_ignored (dcid : pystr) (node : dict value)
    (spell_checker : SpellChecker) (config : option ConfigMap) :
  Forall (fun pv => should_ignore_spell_pv pv.1 pv.2 config = Ok true) node ->
  spell_check_pvs dcid node spell_checker config
  = Ok {| misspelled_pvs := []; words_misspelled := ∅; calls := [] |}.
Proof.
  unfold spell_check_pvs.
  generalize ({| misspelled_pvs := []; words_misspelled := ∅; calls := [] |}).
  intros st Hall. induction Hall as [|[p v] items Hpv Hitems IH];
    [reflexivity|].
  cbn [spell_check_pvs_loop]. rewrite spell_check_pv_ignored by exact Hpv.
  exact IH.
Qed.

Lemma pv_step_words (spell_checker : SpellChecker) (config : ConfigMap)
    (st : pvs_state) (pv : pystr * value) (w : pystr) :
  w ∈ words_misspelled (pv_step spell_checker config st pv) <->
  w ∈ words_misspelled st \/
  (should_ignore_spell_pv pv.1 pv.2 (Some config) = Ok false /\
   w ∈ error_words_of spell_checker (text_only_enabled config) pv.1 pv.2).
Proof.
  unfold pv_step. rewrite should_ignore_spell_pv_exempt. cbn [from_option id].
  destruct (exempt config pv.1 pv.2).
  - split; [tauto|]. intros [Hw|[Hd _]]; [exact Hw | discriminate Hd].
  - cbn [words_misspelled]. rewrite elem_of_union. tauto.
Qed.

Lemma foldl_pv_step_words (spell_checker : SpellChecker) (config : ConfigMap)
    (items : dict value) (st : pvs_state) (w : pystr) :
  w ∈ words_misspelled (foldl (pv_step spell_checker config) st items) <->
  w ∈ words_misspelled st \/
  exists p v,
    (p, v) ∈ items /\
    should_ignore_spell_pv p v (Some config) = Ok false /\
    w ∈ error_words_of spell_checker (text_only_enabled config) p v.
Proof.
  revert st. induction items as [|[p0 v0] items IH]; intros st; simpl.
  - split; [tauto|]. intros [Hw|[p [v [Hin _]]]]; [exact Hw | inversion Hin].
  - rewrite IH, pv_step_words. cbn [fst snd]. split.
    + intros [[Hw|Hw]|[p [v [Hin Hw]]]].
      * tauto.
      * right. exists p0, v0. split; [left | exact Hw].
      * right. exists p, v. split; [right; exact Hin | exact Hw].
    + intros [Hw|[p [v [Hin Hw]]]]; [tauto|].
      apply elem_of_cons in Hin as [[= -> ->]|Hin]; [tauto|].
      right. exists p, v. tauto.
Qed.

(** X10: with a config, the node-level set of misspelled words is the union
    of the error words of the pairs that are not ignored: a word is in it
    exactly when some such pair has it among its error words. *)
Theorem spell_check_pvs_words (dcid : pystr) (node : dict value)
    (spell_checker : SpellChecker) (config : ConfigMap) :
  exists r,
    spell_check_pvs dcid node spell_checker (Some config) = Ok r /\
    forall w,
      w ∈ words_misspelled r <->
      exists p v,
        (p, v) ∈ node /\
        should_ignore_spell_pv p v (Some config) = Ok false /\
        w ∈ error_words_of spell_checker (text_only_enabled config) p v.
Proof.
  eexists. split; [apply spell_check_pvs_Some|]. intros w.
  rewrite foldl_pv_step_words. cbn [words_misspelled]. split.
  - intros [Hw|Hw]; [set_solver | exact Hw].
  - intros Hw. right. exact Hw.
Qed.

End NodeCheckerMore.

(** ** The order of the entries *)

Section EntryOrder.
Context `{UnicodeTables} `{Collaborators} `{SpellCheckerLib}.

(** Setting a new key appends it. *)
Lemma dict_set_fresh {V : Type} (k : pystr) (v : V) (d : dict V) :
  k ∉ dict_keys d -> dict_set k v d = d ++ [(k, v)].
Proof.
  unfold dict_keys. induction d as [|[k0 v0] d IH]; simpl; [reflexivity|].
  rewrite not_elem_of_cons. intros [Hne Hnin].
  destruct (decide (k = k0)); [contradiction|]. rewrite IH by exact Hnin.
  reflexivity.
Qed.

Lemma dict_keys_app {V : Type} (d1 d2 : dict V) :
  dict_keys (d1 ++ d2) = dict_keys d1 ++ dict_keys d2.
Proof. unfold dict_keys. apply fmap_app. Qed.

Lemma pv_step_pvs (spell_checker : SpellChecker) (config : ConfigMap)
    (st : pvs_state) (pv : pystr * value) :
  pv.1 ∉ dict_keys (misspelled_pvs st) ->
  misspelled_pvs (pv_step spell_checker config st pv)
  = misspelled_pvs st ++ option_list (pv_entry spell_checker config pv).
Proof.
  intros Hfresh. unfold pv_step, pv_entry.
  destruct (exempt config pv.1 pv.2); [symmetry; apply app_nil_r|].
  cbn [misspelled_pvs]. destruct (nonempty _); cbn [option_list].
  - apply dict_set_fresh, Hfresh.
  - symmetry. apply app_nil_r.
Qed.

Lemma pv_entry_key (spell_checker : SpellChecker) (config : ConfigMap)
    (pv : pystr * value) (e : pystr * pystr) :
  pv_entry spell_checker config pv = Some e -> e.1 = pv.1.
Proof.
  unfold pv_entry. destruct (exempt _ _ _); [discriminate|].
  destruct (nonempty _); [|discriminate]. intros [= <-]. reflexivity.
Qed.

Lemma foldl_pv_step_pvs (spell_checker : SpellChecker) (config : ConfigMap)
    (items : dict value) (st : pvs_state) :
  NoDup (dict_keys (misspelled_pvs st) ++ dict_keys items) ->
  misspelled_pvs (foldl (pv_step spell_checker config) st items)
  = misspelled_pvs st ++ omap (pv_entry spell_checker config) items.
Proof.
  revert st. induction items as [|pv items IH]; intros st Hnd.
  { simpl. symmetry. apply app_nil_r. }
  cbn [foldl omap list_omap].
  assert (Hfresh : pv.1 ∉ dict_keys (misspelled_pvs st)).
  { apply NoDup_app in Hnd as [_ [Hdisj _]]. intros Hin.
    apply (Hdisj _ Hin). left. }
  rewrite IH.
  - rewrite (pv_step_pvs _ _ _ _ Hfresh), <- app_assoc. f_equal.
    destruct (pv_entry spell_checker config pv); reflexivity.
  - rewrite (pv_step_pvs _ _ _ _ Hfresh), dict_keys_app, <- app_assoc.
    unfold dict_keys in Hnd. cbn [fmap list_fmap] in Hnd.
    destruct (pv_entry spell_checker config pv) as [e|] eqn:He;
      cbn [option_list].
    + apply pv_entry_key in He.
      change (NoDup ((misspelled_pvs st).*1 ++ e.1 :: items.*1)).
      rewrite He. exact Hnd.
    + change (NoDup ((misspelled_pvs st).*1 ++ items.*1)).
      apply NoDup_app in Hnd as [Hk [Hdisj Hit]]. apply NoDup_app.
      apply NoDup_cons in Hit as [_ Hit]. repeat split; [exact Hk| |exact Hit].
      intros x Hx Hin. apply (Hdisj x Hx). right. exact Hin.
Qed.

Lemma omap_keys_sublist {A V : Type} (f : pystr * A -> option (pystr * V))
    (items : dict A) :
  (forall x e, f x = Some e -> e.1 = x.1) ->
  sublist (dict_keys (omap f items)) (dict_keys items).
Proof.
  intros Hf. unfold dict_keys. induction items as [|x items IH];
    [constructor|].
  cbn [omap list_omap fmap list_fmap]. destruct (f x) as [e|] eqn:He.
  - cbn [fmap list_fmap]. rewrite (Hf _ _ He). apply sublist_skip. exact IH.
  - apply sublist_cons. exact IH.
Qed.

(** X11: for a node that is a dictionary, the per-property map lists the
    entries in the order of the node: it is the list of the entries of the
    pairs that are not ignored and have error words, so its keys are keys
    of the node, in the same order. *)
Theorem spell_check_pvs_order (dcid : pystr) (node : dict value)
    (spell_checker : SpellChecker) (config : ConfigMap) :
  NoDup (dict_keys node) ->
  exists r,
    spell_check_pvs dcid node spell_checker (Some config) = Ok r /\
    misspelled_pvs r = omap (pv_entry spell_checker config) node /\
    sublist (dict_keys (misspelled_pvs r)) (dict_keys node).
Proof.
  intros Hnd. eexists. split; [apply spell_check_pvs_Some|].
  assert (Heq :
    misspelled_pvs
      (foldl (pv_step spell_checker config)
             {| misspelled_pvs := []; words_misspelled := ∅; calls := [] |}
             node)
    = omap (pv_entry spell_checker config) node).
  { rewrite foldl_pv_step_pvs; [reflexivity | exact Hnd]. }
  split; [exact Heq|]. rewrite Heq. apply omap_keys_sublist.
  intros x e. apply pv_entry_key.
Qed.

Lemma spell_check_nodes_loop_order (spell_checker : SpellChecker)
    (config : ConfigMap) (nodes : dict (dict value))
    (node_errors : dict (dict pystr)) :
  NoDup (dict_keys node_errors ++ dict_keys nodes) ->
  spell_check_nodes_loop spell_checker config nodes node_errors
  = Ok (node_errors ++ omap (node_entry spell_checker config) nodes).
Proof.
  revert node_errors.
  induction nodes as [|[dcid node] nodes IH]; intros node_errors Hnd.
  { simpl. rewrite app_nil_r. reflexivity. }
  cbn [spell_check_nodes_loop]. rewrite spell_check_pvs_Some.
  cbn [mbind result_bind omap list_omap].
  unfold node_entry at 1, node_result, pvs_state_new. cbn [fst snd].
  set (r := foldl _ _ node).
  assert (Hfresh : dcid ∉ dict_keys node_errors).
  { apply NoDup_app in Hnd as [_ [Hdisj _]]. intros Hin.
    apply (Hdisj _ Hin). left. }
  apply NoDup_app in Hnd as [Hk [Hdisj Hit]].
  unfold dict_keys in Hit. cbn [fmap list_fmap fst] in Hit.
  apply NoDup_cons in Hit as [Hd Hit].
  destruct (nonempty (words_misspelled r)).
  - rewrite IH.
    + rewrite dict_set_fresh by exact Hfresh. rewrite <- app_assoc.
      reflexivity.
    + rewrite dict_set_fresh by exact Hfresh. rewrite dict_keys_app.
      apply NoDup_app. repeat split.
      * apply NoDup_app. repeat split; [exact Hk| |apply NoDup_singleton].
        intros x Hx Hin. apply list_elem_of_singleton in Hin. subst x.
        contradiction.
      * intros x Hx Hin. apply elem_of_app in Hx as [Hx|Hx].
        -- apply (Hdisj x Hx). right. exact Hin.
        -- apply list_elem_of_singleton in Hx. subst x. contradiction.
      * exact Hit.
  - rewrite IH; [reflexivity|]. apply NoDup_app. repeat split;
      [exact Hk| |exact Hit].
    intros x Hx Hin. apply (Hdisj x Hx). right. exact Hin.
Qed.

Lemma node_result_words_iff (spell_checker : SpellChecker)
    (config : ConfigMap) (node : dict value) :
  words_misspelled (node_result spell_checker config node) = ∅ <->
  misspelled_pvs (node_result spell_checker config node) = [].
Proof. apply foldl_pv_step_words_iff. simpl. tauto. Qed.

Lemma node_entry_spec (spell_checker : SpellChecker) (config : ConfigMap)
    (dn : pystr * dict value) (de : pystr * dict pystr) :
  node_entry spell_checker config dn = Some de ->
  de.1 = dn.1 /\ de.2 = misspelled_pvs (node_result spell_checker config dn.2)
  /\ de.2 <> [].
Proof.
  unfold node_entry. destruct (nonempty _) eqn:Hne; [|discriminate].
  intros [= <-]. cbn [fst snd]. repeat split.
  apply nonempty_true in Hne. intros Hd. apply Hne, node_result_words_iff, Hd.
Qed.

(** X12: for nodes that form a dictionary, [spell_check_nodes] returns, in
    the order of the nodes, the dcid and the per-property map of each node
    that has misspelled words; none of the maps it returns is empty. *)
Theorem spell_check_nodes_order (nodes : dict (dict value))
    (config : option ConfigMap) (spell_checker : option SpellChecker) :
  NoDup (dict_keys nodes) ->
  let config' := default ConfigMap_new config in
  let checker := default (get_spell_checker (Some config')) spell_checker in
  spell_check_nodes nodes config spell_checker
  = Ok (omap (node_entry checker config') nodes) /\
  Forall (fun de => de.2 <> [] /\
                    exists node r,
                      (de.1, node) ∈ nodes /\
                      spell_check_pvs de.1 node checker (Some config') = Ok r /\
                      de.2 = misspelled_pvs r)
         (omap (node_entry checker config') nodes).
Proof.
  intros Hnd config' checker. split.
  - unfold spell_check_nodes. fold config' checker.
    rewrite spell_check_nodes_loop_order; [reflexivity | exact Hnd].
  - apply Forall_forall. intros de Hde.
    apply list_elem_of_omap in Hde as [[dcid node] [Hin Hentry]].
    apply node_entry_spec in Hentry as [Hk [Hv Hne]].
    destruct de as [d m]. cbn [fst snd] in *. subst d.
    split; [exact Hne|]. exists node, (node_result checker config' node).
    split; [exact Hin|]. split; [|exact Hv].
    apply spell_check_pvs_Some.
Qed.

End EntryOrder.

(** ** Checking MCF files *)

Section McfCheckerFacts.
Context `{UnicodeTables} `{Collaborators} `{SpellCheckerLib} `{!McfFiles}.

Lemma spell_check_nodes_total (nodes : dict (dict value)) (config : ConfigMap)
    (spell_checker : SpellChecker) :
  exists node_errors,
    spell_check_nodes nodes (Some config) (Some spell_checker) = Ok node_errors.
Proof.
  unfold spell_check_nodes. cbn [from_option id].
  destruct (spell_check_nodes_loop_keys spell_checker config nodes [])
    as [errs [Heq _]].
  exists errs. exact Heq.
Qed.

Lemma spell_check_mcf_loop_total (spell_checker : SpellChecker)
    (config : ConfigMap) (input_files : list pystr)
    (nodes_misspelled : list spell_error) :
  exists records,
    spell_check_mcf_loop spell_checker config input_files nodes_misspelled
    = Ok records.
Proof.
  revert nodes_misspelled.
  induction input_files as [|f files IH]; intros acc; [eexists; reflexivity|].
  cbn [spell_check_mcf_loop].
  destruct (spell_check_nodes_total (load_mcf_nodes f) config spell_checker)
    as [errs ->].
  cbn [mbind result_bind]. apply IH.
Qed.

(** X13: [spell_check_mcf] returns, and it writes the records it returns,
    under the name [file_get_name] gives to [spell_check_output], exactly
    when there is a record and [spell_check_output] is set to a string that
    is not empty; otherwise it writes nothing. *)
Theorem spell_check_mcf_output (input_mcf : pystr) (config : option ConfigMap) :
  let output_file :=
    default [] (spell_check_output (default ConfigMap_new config)) in
  exists res,
    spell_check_mcf input_mcf config = Ok res /\
    (mcf_written res = None <-> mcf_records res = [] \/ output_file = []) /\
    (forall written,
       mcf_written res = Some written ->
       written = (file_get_name output_file, mcf_records res)).
Proof.
  intros output_file. unfold spell_check_mcf. fold output_file.
  destruct (spell_check_mcf_loop_total
              (get_spell_checker (Some (default ConfigMap_new config)))
              (default ConfigMap_new config)
              (file_get_matching input_mcf) []) as [records ->].
  cbn [mbind result_bind]. eexists. split; [reflexivity|].
  cbn [mcf_records mcf_written]. unfold str_truthy.
  destruct records as [|rec records].
  - split; [tauto | discriminate].
  - destruct (decide (output_file = [])) as [Hout|Hout].
    + rewrite bool_decide_eq_true_2 by exact Hout. cbn [negb].
      split; [tauto | discriminate].
    + rewrite bool_decide_eq_false_2 by exact Hout. cbn [negb]. split.
      * split; [discriminate|]. intros [Hr|Ho]; [discriminate | contradiction].
      * intros written [= <-]. reflexivity.
Qed.

Lemma spell_check_nodes_given (nodes : dict (dict value))
    (config : ConfigMap) (spell_checker : SpellChecker) :
  NoDup (dict_keys nodes) ->
  spell_check_nodes nodes (Some config) (Some spell_checker)
  = Ok (omap (node_entry spell_checker config) nodes).
Proof.
  intros Hnd. unfold spell_check_nodes. cbn [from_option id].
  rewrite spell_check_nodes_loop_order; [reflexivity | exact Hnd].
Qed.

Lemma spell_check_mcf_loop_records (spell_checker : SpellChecker)
    (config : ConfigMap) (input_files : list pystr)
    (nodes_misspelled : list spell_error) :
  (forall f, f ∈ input_files -> NoDup (dict_keys (load_mcf_nodes f))) ->
  spell_check_mcf_loop spell_checker config input_files nodes_misspelled
  = Ok (nodes_misspelled
        ++ flat_map
             (fun f => node_error_records f
                         (omap (node_entry spell_checker config)
                               (load_mcf_nodes f)))
             input_files).
Proof.
  revert nodes_misspelled.
  induction input_files as [|f files IH]; intros acc Hnd.
  { simpl. rewrite app_nil_r. reflexivity. }
  cbn [spell_check_mcf_loop flat_map].
  rewrite spell_check_nodes_given by (apply Hnd; left).
  cbn [mbind result_bind]. rewrite IH.
  - rewrite <- app_assoc. reflexivity.
  - intros f' Hf'. apply Hnd. right. exact Hf'.
Qed.

Lemma node_error_records_elem (mcf_file : pystr)
    (node_errors : dict (dict pystr)) (rec : spell_error) :
  rec ∈ node_error_records mcf_file node_errors <->
  err_file rec = mcf_file /\
  exists pvs,
    (err_dcid rec, pvs) ∈ node_errors /\
    (err_property rec, err_spell_errors rec) ∈ pvs.
Proof.
  unfold node_error_records.
  rewrite list_elem_of_In, List.in_flat_map. split.
  - intros [[dcid pvs] [Hde Hrec]]. apply List.in_map_iff in Hrec
      as [[prop errs] [<- Hpe]].
    cbn [err_file err_dcid err_property err_spell_errors fst snd] in *.
    split; [reflexivity|]. exists pvs.
    rewrite !list_elem_of_In. tauto.
  - intros [Hf [pvs [Hde Hpe]]]. exists (err_dcid rec, pvs).
    rewrite list_elem_of_In in Hde. split; [exact Hde|].
    apply List.in_map_iff. exists (err_property rec, err_spell_errors rec).
    rewrite list_elem_of_In in Hpe. split; [|exact Hpe].
    destruct rec. cbn in *. subst. reflexivity.
Qed.

(** X14: when each input file holds a dictionary of nodes,
    [spell_check_mcf] returns one record for each file matched, each node
    of the file and each entry of the per-property map of the node, and no
    other record. *)
Theorem spell_check_mcf_records (input_mcf : pystr)
    (config : option ConfigMap) :
  (forall f, f ∈ file_get_matching input_mcf ->
             NoDup (dict_keys (load_mcf_nodes f))) ->
  let config' := default ConfigMap_new config in
  let checker := get_spell_checker (Some config') in
  exists res,
    spell_check_mcf input_mcf config = Ok res /\
    forall rec,
      rec ∈ mcf_records res <->
      err_file rec ∈ file_get_matching input_mcf /\
      exists node r,
        (err_dcid rec, node) ∈ load_mcf_nodes (err_file rec) /\
        spell_check_pvs (err_dcid rec) node checker (Some config') = Ok r /\
        (err_property rec, err_spell_errors rec) ∈ misspelled_pvs r.
Proof.
  intros Hnd config' checker. unfold spell_check_mcf. fold config' checker.
  rewrite spell_check_mcf_loop_records by exact Hnd.
  cbn [mbind result_bind app]. eexists. split; [reflexivity|].
  cbn [mcf_records]. intros rec.
  rewrite list_elem_of_In, List.in_flat_map. split.
  - intros [f [Hf Hrec]]. apply list_elem_of_In in Hf.
    apply list_elem_of_In in Hrec.
    apply node_error_records_elem in Hrec as [<- [pvs [Hde Hpe]]].
    split; [exact Hf|].
    apply list_elem_of_omap in Hde as [[dcid node] [Hin Hentry]].
    apply node_entry_spec in Hentry as [Hk [Hv _]]. cbn [fst snd] in *.
    subst dcid pvs. exists node, (node_result checker config' node).
    split; [exact Hin|]. split; [apply spell_check_pvs_Some | exact Hpe].
  - intros [Hf [node [r [Hin [Hok Hpe]]]]]. exists (err_file rec).
    rewrite <- list_elem_of_In. split; [exact Hf|].
    rewrite <- list_elem_of_In. apply node_error_records_elem.
    split; [reflexivity|]. exists (misspelled_pvs r). split; [|exact Hpe].
    apply list_elem_of_omap. exists (err_dcid rec, node). split; [exact Hin|].
    rewrite spell_check_pvs_Some in Hok. injection Hok as Hr.
    unfold node_entry. cbn [fst snd].
    change (node_result checker config' node = r) in Hr. rewrite Hr.
    replace (nonempty (words_misspelled r)) with true; [reflexivity|].
    symmetry. apply nonempty_true. intros Hw. subst r.
    apply node_result_words_iff in Hw. rewrite Hw in Hpe. inversion Hpe.
Qed.

End McfCheckerFacts.

(** ** Joining and splitting *)

(** Splitting what was joined gives the words back, when no word holds the
    separator. *)
Lemma split_on_join (sep : N) (ws : list pystr) :
  ws <> [] -> Forall (fun w => sep ∉ w) ws ->
  split_on sep (join [sep] ws) = ws.
Proof.
  intros Hne Hws. induction Hws as [|w ws Hw Hws IH]; [contradiction|].
  assert (Hw' : Forall (fun c => c <> sep) w).
  { apply Forall_forall. intros c Hc ->. contradiction. }
  destruct ws as [|w' ws].
  - simpl. apply split_on_no_sep, Hw'.
  - change (join [sep] (w :: w' :: ws))
      with (w ++ sep :: join [sep] (w' :: ws)).
    rewrite split_on_app_sep, IH by discriminate.
    rewrite split_on_no_sep by exact Hw'. reflexivity.
Qed.

Lemma join_singleton_sep_nil (sep : N) (ws : list pystr) :
  join [sep] ws = [] -> ws = [] \/ ws = [[]].
Proof. apply join_nil. discriminate. Qed.

Lemma app_sep_inj (c : N) (a b x y : pystr) :
  c ∉ a -> c ∉ b -> a ++ c :: x = b ++ c :: y -> a = b /\ x = y.
Proof.
  revert b. induction a as [|a0 a IH]; intros [|b0 b] Ha Hb; simpl.
  - intros [= ->]. tauto.
  - intros [= <- _]. exfalso. apply Hb. left.
  - intros [= -> _]. exfalso. apply Ha. left.
  - intros [= -> Hrest]. apply not_elem_of_cons in Ha as [_ Ha].
    apply not_elem_of_cons in Hb as [_ Hb].
    destruct (IH b Ha Hb Hrest) as [-> ->]. tauto.
Qed.

(** Two lists of words without a comma that join to the same string are
    the same list. *)
Lemma join_comma_inj (l1 l2 : list pystr) :
  Forall (fun w => (COMMA ∉ w) /\ w <> []) l1 ->
  Forall (fun w => (COMMA ∉ w) /\ w <> []) l2 ->
  join (py ", ") l1 = join (py ", ") l2 -> l1 = l2.
Proof.
  change (py ", ") with [COMMA; SPACE].
  intros H1. revert l2. induction H1 as [|w1 l1 [Hc1 Hn1] H1 IH];
    intros l2 H2 Hj.
  - destruct H2 as [|w2 l2 [_ Hn2] _]; [reflexivity|].
    exfalso. destruct l2; simpl in Hj; destruct w2; try discriminate;
      contradiction.
  - destruct H2 as [|w2 l2 [Hc2 Hn2] H2].
    + exfalso. destruct l1; simpl in Hj; destruct w1; try discriminate;
        contradiction.
    + destruct l1 as [|w1' l1], l2 as [|w2' l2].
      * simpl in Hj. subst. reflexivity.
      * exfalso. change (w1 = w2 ++ COMMA :: SPACE :: join [COMMA; SPACE] (w2' :: l2)) in Hj.
        apply Hc1. rewrite Hj. apply elem_of_app. right. left.
      * exfalso. change (w1 ++ COMMA :: SPACE :: join [COMMA; SPACE] (w1' :: l1) = w2) in Hj.
        apply Hc2. rewrite <- Hj. apply elem_of_app. right. left.
      * change (w1 ++ COMMA :: SPACE :: join [COMMA; SPACE] (w1' :: l1)
                = w2 ++ COMMA :: SPACE :: join [COMMA; SPACE] (w2' :: l2)) in Hj.
        apply app_sep_inj in Hj as [-> Hj]; [|exact Hc1|exact Hc2].
        injection Hj as Hj. f_equal. apply IH; assumption.
Qed.

(** X15: the entry stored for a property tells its error words: two sets
    of words, none empty and none with a comma, that give the same entry
    are the same set. *)
Theorem error_entry_inj (ws1 ws2 : gset pystr) :
  (forall w, w ∈ ws1 ∪ ws2 -> (COMMA ∉ w) /\ w <> []) ->
  error_entry ws1 = error_entry ws2 -> ws1 = ws2.
Proof.
  intros Hws Hentry. unfold error_entry in Hentry.
  apply join_comma_inj in Hentry.
  - apply set_eq. intros w.
    rewrite <- (proj2 (proj2 (sorted_spec ws1)) w).
    rewrite <- (proj2 (proj2 (sorted_spec ws2)) w). rewrite Hentry.
    reflexivity.
  - apply Forall_forall. intros w Hw. apply Hws, elem_of_union. left.
    apply sorted_spec, Hw.
  - apply Forall_forall. intros w Hw. apply Hws, elem_of_union. right.
    apply sorted_spec, Hw.
Qed.

(** ** More on the dictionary builder *)

Section DictionaryBuilderMore.
Context `{Collaborators} `{SpellCheckerLib}.

(** X16: [spell_allow_words] given as one comma separated string loads
    the same checker as the list of the words, for words without a comma;
    the list of the single empty word, which joins to the empty string, is
    left aside. *)
Theorem get_spell_checker_allow_words_string (config : ConfigMap)
    (ws : list pystr) :
  Forall (fun w => COMMA ∉ w) ws -> ws <> [[]] ->
  get_spell_checker (Some (set_allow_words (AllowStr (join [COMMA] ws)) config))
  = get_spell_checker (Some (set_allow_words (AllowList ws) config)).
Proof.
  intros Hws Hne. unfold get_spell_checker.
  cbn [from_option id set_allow_words spell_allowlist spell_allow_words
       allow_words_truthy allow_words_list].
  unfold str_truthy. destruct ws as [|w ws].
  - reflexivity.
  - rewrite (bool_decide_eq_false_2 (w :: ws = [])) by discriminate.
    rewrite (bool_decide_eq_false_2 (join [COMMA] (w :: ws) = [])).
    + cbn [negb]. rewrite split_on_join; [reflexivity|discriminate|exact Hws].
    + intros Hj. apply join_singleton_sep_nil in Hj as [Hj|Hj];
        [discriminate | contradiction].
Qed.

End DictionaryBuilderMore.

(** ** Where a token is split *)

Section SplitPositions.
Context `{UnicodeTables}.

Lemma finditer2_skip (p1 p2 : N -> bool) (pos : nat) (c : N) (rest : pystr) :
  p1 c = false ->
  finditer2 p1 p2 (pos + 1) (c :: rest) = finditer2 p1 p2 (pos + 2) rest.
Proof.
  intros Hc. destruct rest as [|c' rest]; [reflexivity|].
  rewrite finditer2_step, Hc. cbn [andb]. f_equal. lia.
Qed.

(** When no character is in both classes, the matches are all the places
    where a character of the first class is followed by one of the
    second. *)
Lemma finditer2_elem (p1 p2 : N -> bool) (w : pystr) :
  Forall (fun c => p2 c = true -> p1 c = false) w ->
  forall pos i,
    i ∈ finditer2 p1 p2 pos w <->
    exists j c1 c2,
      i = (pos + j)%nat /\ w !! j = Some c1 /\ w !! S j = Some c2 /\
      p1 c1 = true /\ p2 c2 = true.
Proof.
  remember (length w) as n eqn:Hn. revert w Hn.
  induction n as [n IH] using lt_wf_ind. intros w Hn Hw pos i.
  destruct w as [|c1 [|c2 rest]].
  - split; [intros Hin; inversion Hin|].
    intros [j [x [y [_ [Hj _]]]]]. discriminate Hj.
  - split; [intros Hin; inversion Hin|].
    intros [j [x [y [_ [_ [Hj _]]]]]]. destruct j; discriminate Hj.
  - rewrite finditer2_step.
    inversion Hw as [|? ? _ Htl]; subst. inversion Htl as [|? ? Hc2 Hrest]; subst.
    destruct (p1 c1 && p2 c2) eqn:Hm.
    + apply andb_true_iff in Hm as [Hp1 Hp2].
      rewrite <- (finditer2_skip p1 p2 pos c2 rest (Hc2 Hp2)).
      rewrite elem_of_cons, (IH (length (c2 :: rest))); [|simpl; lia|reflexivity|exact Htl].
      split.
      * intros [->|[j [x [y [-> Hj]]]]].
        -- exists 0%nat, c1, c2. rewrite Nat.add_0_r. repeat split; assumption.
        -- exists (S j), x, y. split; [lia | exact Hj].
      * intros [[|j] [x [y [-> [Hx Hrest']]]]].
        -- left. lia.
        -- right. exists j, x, y. split; [lia|]. split; [exact Hx | exact Hrest'].
    + rewrite (IH (length (c2 :: rest))); [|simpl; lia|reflexivity|exact Htl].
      split.
      * intros [j [x [y [-> Hj]]]]. exists (S j), x, y. split; [lia | exact Hj].
      * intros [[|j] [x [y [-> [Hx [Hy [Hpx Hpy]]]]]]].
        -- exfalso. injection Hx as <-. injection Hy as <-.
           rewrite Hpx, Hpy in Hm. discriminate Hm.
        -- exists j, x, y. split; [lia|]. repeat split; assumption.
Qed.

Lemma finditer2_sorted (p1 p2 : N -> bool) (w : pystr) :
  forall pos,
    StronglySorted lt (finditer2 p1 p2 pos w) /\
    Forall (fun i => (pos <= i)%nat /\ (i + 2 <= pos + length w)%nat)
           (finditer2 p1 p2 pos w).
Proof.
  remember (length w) as n eqn:Hn. revert w Hn.
  induction n as [n IH] using lt_wf_ind. intros w Hn pos.
  destruct w as [|c1 [|c2 rest]]; try (split; constructor).
  rewrite finditer2_step. simpl in Hn. destruct (p1 c1 && p2 c2).
  - destruct (IH (length rest) ltac:(lia) rest eq_refl (pos + 2)%nat)
      as [Hs Hb].
    split.
    + constructor; [exact Hs|]. eapply Forall_impl; [exact Hb|].
      intros i [Hi _]. lia.
    + constructor; [lia|]. eapply Forall_impl; [exact Hb|].
      intros i [Hi Hi']. lia.
  - destruct (IH (length (c2 :: rest)) ltac:(simpl; lia) (c2 :: rest) eq_refl
                 (pos + 1)%nat) as [Hs Hb].
    split; [exact Hs|]. eapply Forall_impl; [exact Hb|].
    intros i [Hi Hi']. simpl in Hi'. lia.
Qed.

(** Two neighbours of an increasing list have none of its elements
    between them. *)
Lemma zip_tail_consecutive (B : list nat) (a b : nat) :
  StronglySorted lt B -> (a, b) ∈ zip B (tail B) ->
  (a < b)%nat /\ forall x, x ∈ B -> (x <= a)%nat \/ (b <= x)%nat.
Proof.
  induction 1 as [|a0 B HB IH Hall]; [intros Hin; inversion Hin|].
  destruct B as [|b0 B']; [intros Hin; inversion Hin|].
  change (zip (a0 :: b0 :: B') (tail (a0 :: b0 :: B')))
    with ((a0, b0) :: zip (b0 :: B') (tail (b0 :: B'))).
  rewrite elem_of_cons. intros [[= -> ->]|Hin].
  - inversion Hall as [|? ? Hab Hall']; subst. split; [exact Hab|].
    intros x Hx. apply elem_of_cons in Hx as [->|Hx]; [left; lia|].
    apply elem_of_cons in Hx as [->|Hx]; [right; lia|].
    inversion HB as [|? ? _ Hb0]; subst. rewrite Forall_forall in Hb0.
    specialize (Hb0 x Hx). right. lia.
  - destruct (IH Hin) as [Hab Hbetween]. split; [exact Hab|].
    intros x Hx. apply elem_of_cons in Hx as [->|Hx]; [|apply Hbetween, Hx].
    left. rewrite Forall_forall in Hall.
    specialize (Hall a (elem_of_zip_l _ _ _ _ Hin)). lia.
Qed.

Lemma slice_lookup (w : pystr) (a b j : nat) (c : N) :
  slice w a b !! j = Some c -> w !! (a + j)%nat = Some c /\ (a + j < b)%nat.
Proof.
  unfold slice, pystr in *. intros Hj.
  assert (Hlt : (j < b - a)%nat).
  { destruct (decide (j < b - a)%nat) as [Hlt|Hge]; [exact Hlt|].
    rewrite lookup_take_ge in Hj by lia. discriminate Hj. }
  rewrite lookup_take_lt in Hj by exact Hlt.
  rewrite lookup_drop in Hj. split; [exact Hj | lia].
Qed.

Lemma split_positions_sorted (second : N -> bool) (w : pystr) :
  w <> [] -> StronglySorted lt (split_positions second w).
Proof.
  intros Hne. unfold split_positions.
  destruct (finditer2_sorted (fun c => negb (is_AZ c)) second w 0%nat)
    as [Hs Hb].
  set (M := finditer2 _ _ _ _) in *. cbn [Nat.add] in Hb.
  assert (Htail : StronglySorted lt
                    (List.map (fun start => (start + 1)%nat) M ++ [length w])).
  { clear Hne. induction Hs as [|m M Hs IH Hm].
    - simpl. repeat constructor.
    - inversion Hb as [|? ? [_ Hm2] Hb']; subst. cbn [List.map app].
      constructor; [apply IH, Hb'|].
      apply Forall_app. split.
      + rewrite Forall_forall in Hm. apply Forall_forall. intros x Hx.
        apply list_elem_of_In, List.in_map_iff in Hx as [y [<- Hy]].
        apply list_elem_of_In in Hy. specialize (Hm y Hy). lia.
      + repeat constructor. lia. }
  constructor; [exact Htail|]. apply Forall_app. split.
  - apply Forall_forall. intros x Hx.
    apply list_elem_of_In, List.in_map_iff in Hx as [y [<- _]]. lia.
  - repeat constructor. destruct w; [contradiction | simpl; lia].
Qed.

(** A piece of a token of letters holds no place where the token would be
    split. *)
Lemma camel_piece_no_match (t w : pystr) :
  t <> [] -> Forall (fun c => is_AZaz c = true) t ->
  w ∈ camel_pieces t ->
  finditer2 (fun c => negb (is_AZ c)) is_AZ09 0 w = [].
Proof.
  intros Hne Ht Hw.
  assert (Hdisj : forall u, Forall (fun c => is_AZaz c = true) u ->
    Forall (fun c => is_AZ09 c = true -> negb (is_AZ c) = false) u).
  { intros u Hu. eapply Forall_impl; [exact Hu|]. intros c Hc.
    unfold is_AZ09. rewrite (letter_not_digit c Hc), orb_false_r.
    intros ->. reflexivity. }
  unfold camel_pieces in Hw.
  apply list_elem_of_In, List.in_map_iff in Hw as [[a b] [<- Hab]].
  apply list_elem_of_In in Hab. cbn [fst snd].
  apply (zip_tail_consecutive _ _ _ (split_positions_sorted _ _ Hne)) in Hab
    as [_ Hbetween].
  destruct (finditer2 _ _ 0 (slice t a b)) as [|i M] eqn:HM; [reflexivity|].
  exfalso.
  assert (Hi : i ∈ finditer2 (fun c => negb (is_AZ c)) is_AZ09 0 (slice t a b))
    by (rewrite HM; left).
  apply finditer2_elem in Hi as [j [c1 [c2 [_ [Hj [HSj [Hp1 Hp2]]]]]]];
    [|apply Hdisj, slice_Forall, Ht].
  apply slice_lookup in Hj as [Hj _]. apply slice_lookup in HSj as [HSj Hlt].
  assert (Hin : (a + j)%nat
                ∈ finditer2 (fun c => negb (is_AZ c)) is_AZ09 0 t).
  { apply finditer2_elem; [apply Hdisj, Ht|]. exists (a + j)%nat, c1, c2.
    replace (S (a + j)) with (a + S j)%nat by lia.
    repeat split; assumption. }
  destruct (Hbetween (a + j + 1)%nat) as [Hle|Hge]; [|lia|lia].
  unfold split_positions. right. apply elem_of_app. left.
  apply list_elem_of_In, List.in_map_iff. exists (a + j)%nat.
  split; [reflexivity | apply list_elem_of_In, Hin].
Qed.

(** X18: in a token of letters, the pattern of the split matches exactly
    at each lower case letter that is followed by an upper case letter. *)
Theorem finditer_letters (t : pystr) :
  Forall (fun c => is_AZaz c = true) t ->
  forall i,
    i ∈ finditer2 (fun c => negb (is_AZ c)) is_AZ09 0 t <->
    exists c1 c2,
      t !! i = Some c1 /\ t !! S i = Some c2 /\
      is_az c1 = true /\ is_AZ c2 = true.
Proof.
  intros Ht i.
  assert (Hl : forall j c, t !! j = Some c -> is_AZaz c = true).
  { intros j c Hj. rewrite Forall_forall in Ht. apply Ht.
    apply list_elem_of_lookup. exists j. exact Hj. }
  rewrite finditer2_elem.
  - split.
    + intros [j [c1 [c2 [-> [H1 [H2 [Hp1 Hp2]]]]]]]. exists c1, c2.
      cbn [Nat.add]. repeat split; try assumption.
      * apply Hl in H1. unfold is_AZaz in H1.
        apply negb_true_iff in Hp1. rewrite Hp1 in H1. exact H1.
      * apply Hl in H2. unfold is_AZ09 in Hp2.
        rewrite (letter_not_digit c2 H2), orb_false_r in Hp2. exact Hp2.
    + intros [c1 [c2 [H1 [H2 [Hp1 Hp2]]]]]. exists i, c1, c2.
      repeat split; try assumption.
      * unfold is_az, is_AZ, in_range in *.
        apply andb_true_iff in Hp1 as [Hlo _]. apply N.leb_le in Hlo.
        apply negb_true_iff, andb_false_iff. right. apply N.leb_gt. lia.
      * unfold is_AZ09. rewrite Hp2. reflexivity.
  - eapply Forall_impl; [exact Ht|]. intros c Hc. unfold is_AZ09.
    rewrite (letter_not_digit c Hc), orb_false_r. intros ->. reflexivity.
Qed.

(** X17: the words returned by [get_words] are stable: each of them,
    given to [get_words] again, comes back as the only word. *)
Theorem get_words_stable (value : pystr) :
  Forall (fun w => get_words w = [w]) (get_words value).
Proof.
  apply Forall_forall. intros w Hw.
  assert (Hl : Forall (fun c => is_AZaz c = true) w).
  { pose proof (get_words_Forall _ value (raw_tokens_letters value)) as Hall.
    rewrite Forall_forall in Hall. apply Hall, Hw. }
  unfold get_words in Hw.
  apply list_elem_of_In, List.filter_In in Hw as [Hw Htext].
  apply List.in_flat_map in Hw as [t [Ht Hw]].
  apply list_elem_of_In in Ht.
  assert (Htl : Forall (fun c => is_AZaz c = true) t).
  { pose proof (raw_tokens_letters value) as Hall.
    rewrite Forall_forall in Hall. apply Hall, Ht. }
  destruct t as [|c t]; [inversion Hw|]. apply list_elem_of_In in Hw.
  apply camel_piece_no_match in Hw; [|discriminate|exact Htl].
  unfold get_words. rewrite raw_tokens_letters_only by exact Hl.
  destruct w as [|c0 w]; [discriminate Htext|].
  cbn [flat_map]. rewrite app_nil_r, camel_pieces_no_match by exact Hw.
  cbn [List.filter]. rewrite Htext. reflexivity.
Qed.

End SplitPositions.

(** ** What the pattern of generated ids finds *)

Section GeneratedIds.
Context `{UnicodeTables}.

Lemma digit_isword (d : N) : is_09 d = true -> isword d = true.
Proof.
  unfold isword. intros Hd. rewrite Hd.
  unfold is_09, in_range in Hd. apply andb_true_iff in Hd as [_ Hhi].
  apply N.leb_le in Hhi.
  assert (Hlt : (d <? 128) = true) by (apply N.ltb_lt; lia).
  rewrite Hlt. rewrite orb_true_r. reflexivity.
Qed.

Lemma word_boundary_after_word (c : N) (next : option N) :
  isword c = true ->
  word_boundary (Some c) next = true <->
  forall x, next = Some x -> isword x = false.
Proof.
  intros Hc. unfold word_boundary. cbn [from_option]. rewrite Hc.
  destruct next as [x|]; cbn [from_option].
  - destruct (isword x) eqn:Hx; cbn [xorb].
    + split; [discriminate|]. intros Hall. specialize (Hall x eq_refl).
      congruence.
    + split; [intros _ y [= <-]; exact Hx | reflexivity].
  - split; [intros _ x Hx; discriminate Hx | reflexivity].
Qed.

Lemma word_boundary_before_word (prev : option N) (c : N) :
  isword c = true ->
  word_boundary prev (Some c) = true <->
  forall x, prev = Some x -> isword x = false.
Proof.
  intros Hc. unfold word_boundary. cbn [from_option]. rewrite Hc.
  destruct prev as [x|]; cbn [from_option].
  - destruct (isword x) eqn:Hx; cbn [xorb].
    + split; [discriminate|]. intros Hall. specialize (Hall x eq_refl).
      congruence.
    + split; [intros _ y [= <-]; exact Hx | reflexivity].
  - split; [intros _ x Hx; discriminate Hx | reflexivity].
Qed.

Lemma last_digit (ds : pystr) :
  ds <> [] -> Forall (fun c => is_09 c = true) ds ->
  exists d, last ds = Some d /\ is_09 d = true.
Proof.
  intros Hne Hds. destruct (last ds) as [d|] eqn:Hl.
  - exists d. split; [reflexivity|]. rewrite Forall_forall in Hds.
    apply Hds. apply last_Some in Hl as [l' ->]. apply elem_of_app.
    right. left.
  - apply last_None in Hl. contradiction.
Qed.

(** X19: [re.search(r'\bE[0-9]+\b', value)] finds a match exactly when the
    value holds an [E] followed by one or more digits, such that the
    character before the [E], if there is one, is not a word character, and
    neither is the character after the digits, if there is one. *)
Theorem search_E_digits_matches (value : pystr) :
  search_E_digits value = true <->
  exists pre ds post,
    value = pre ++ LETTER_E :: ds ++ post /\ ds <> [] /\
    Forall (fun c => is_09 c = true) ds /\
    (forall c, last pre = Some c -> isword c = false) /\
    (forall c, head post = Some c -> isword c = false).
Proof.
  unfold search_E_digits. rewrite search_E_digits_from_spec.
  assert (HE : isword LETTER_E = true) by reflexivity.
  split; intros [pre [ds [post [Hv [Hne [Hds [Hb Ha]]]]]]];
    exists pre, ds, post; (split; [exact Hv|]); (split; [exact Hne|]);
    (split; [exact Hds|]);
    destruct (last_digit ds Hne Hds) as [d [Hl Hd]];
    apply digit_isword in Hd.
  - cbn [option_list app] in Hb.
    split; [apply (word_boundary_before_word _ _ HE), Hb|].
    rewrite Hl in Ha. apply (word_boundary_after_word _ _ Hd), Ha.
  - cbn [option_list app].
    split; [apply (word_boundary_before_word _ _ HE), Hb|].
    rewrite Hl. apply (word_boundary_after_word _ _ Hd), Ha.
Qed.

End GeneratedIds.

(** ** The definitions at work in the small world *)

#[local] Existing Instance ascii_tables.
#[local] Existing Instance demo_collaborators.
#[local] Existing Instance demo_spellchecker.

Example should_ignore_generated_id :
  should_ignore_spell_pv (py "dcid") (VStr (py "dc/vp8cbt6k79t94")) None = Ok true /\
  should_ignore_spell_pv (py "dcid") (VStr (py "dc/g/Root")) None = Ok false.
Proof. split; vm_compute; reflexivity. Qed.

Example should_ignore_default_props :
  should_ignore_spell_pv (py "url") (VStr (py "anything")) None = Ok true /\
  should_ignore_spell_pv (py "myCustomProp") (VStr (py "anything")) None = Ok false.
Proof. split; vm_compute; reflexivity. Qed.

Example search_E_digits_examples :
  search_E_digits (py "E0/45f0043e-5a3c-1c95-ee38-79891bfe7b6f") = true /\
  search_E_digits (py "l:E12") = true /\
  search_E_digits (py "E12a") = false /\
  search_E_digits (py "ME12") = false /\
  search_E_digits (py "Earth") = false.
Proof. repeat split; vm_compute; reflexivity. Qed.

Example spell_check_pvs_demo :
  exists r,
    spell_check_pvs (py "dc/1") demo_node SpellChecker_new (Some ConfigMap_new)
    = Ok r /\
    misspelled_pvs r = [ (py "name", py "Count, Populaton");
                         (py "count", py "Count") ] /\
    elements (words_misspelled r) = [py "Count"; py "Populaton"].
Proof. eexists. split; [reflexivity|]. split; vm_compute; reflexivity. Qed.

Lemma demo_unknown_not_empty (sc : SpellChecker) (ws : gset pystr) (e : pystr) :
  (forall w, w ∈ ws -> w <> []) -> e ∈ unknown sc ws -> e <> [].
Proof.
  intros Hws He. apply Hws. cbn [unknown demo_spellchecker] in He.
  apply elem_of_filter in He. tauto.
Qed.

Lemma demo_node_keys : NoDup (dict_keys demo_node).
Proof. apply (bool_decide_unpack _). vm_compute. exact I. Qed.

Lemma spell_check_pvs_entries_witness :
  NoDup (dict_keys demo_node) /\
  exists r,
    spell_check_pvs (py "dc/1") demo_node SpellChecker_new (Some ConfigMap_new)
    = Ok r /\
    (forall p e, (p, e) ∈ misspelled_pvs r -> e <> []).
Proof.
  split; [exact demo_node_keys|].
  destruct (spell_check_pvs_entries (py "dc/1") demo_node SpellChecker_new
              ConfigMap_new (demo_unknown_not_empty SpellChecker_new)
              demo_node_keys) as [r [Hok [_ [Hne _]]]].
  exists r. split; [exact Hok | exact Hne].
Defined.

Lemma spell_check_pvs_text_only_witness :
  spell_check_text_only text_only_config = Some true /\
  exists r,
    spell_check_pvs (py "dc/1") demo_text_node SpellChecker_new
      (Some text_only_config) = Ok r /\
    Forall (fun c => is_prop_call c = false) (calls r).
Proof.
  split; [reflexivity|].
  destruct (spell_check_pvs_text_only (py "dc/1") demo_text_node
              SpellChecker_new text_only_config eq_refl)
    as [r [Hok [Hcalls _]]].
  exists r. split; [exact Hok | exact Hcalls].
Defined.

Lemma demo_node_checked_pair :
  exists p v, (p, v) ∈ demo_node /\ should_ignore_spell_pv p v None = Ok false.
Proof.
  exists (py "name"), (VStr (py "Populaton Count")).
  split; [left | vm_compute; reflexivity].
Qed.

Lemma spell_check_pvs_config_None_witness :
  (exists p v, (p, v) ∈ demo_node /\
               should_ignore_spell_pv p v None = Ok false) /\
  spell_check_pvs (py "dc/1") demo_node SpellChecker_new None
  = Raise AttributeError.
Proof.
  split; [exact demo_node_checked_pair|].
  apply (spell_check_pvs_config_None (py "dc/1") demo_node SpellChecker_new
           demo_node_checked_pair).
Defined.

Lemma get_spell_checker_no_allow_files_witness :
  file_get_matching
    (default _DEFAULT_ALLOWLIST
       (spell_allowlist (default get_default_spell_config (Some ConfigMap_new))))
  = [] /\
  get_spell_checker (Some ConfigMap_new)
  = load_words [py "dcs"; py "dcid"] SpellChecker_new.
Proof.
  assert (Hfiles :
    file_get_matching
      (default _DEFAULT_ALLOWLIST
         (spell_allowlist
            (default get_default_spell_config (Some ConfigMap_new))))
    = []) by reflexivity.
  split; [exact Hfiles|].
  apply (get_spell_checker_no_allow_files (Some ConfigMap_new) Hfiles).
  reflexivity.
Defined.

(** C1, as stated, fails on the empty string: with [spell_check_text_only]
    set, the value [""] is a string that does not begin with a double
    quote, and the pair is not ignored. *)
Lemma should_ignore_spell_pv_empty_string_counterexample :
  ~ (should_ignore_spell_pv (py "name") (VStr []) (Some text_only_config)
     = Ok true <->
     exempt_for_any_string text_only_config (py "name") (VStr [])).
Proof.
  intros [_ Hback].
  assert (Hrules : exempt_for_any_string text_only_config (py "name") (VStr [])).
  { right. exists []. split; [reflexivity|].
    right. right. left. split; [reflexivity | discriminate]. }
  apply Hback in Hrules. vm_compute in Hrules. discriminate Hrules.
Qed.

(** C6, as stated, fails on the empty string: in text-only mode the value
    [""] is let through by the policy and does not begin with a double
    quote. *)
Lemma text_only_empty_string_counterexample :
  ~ (should_ignore_spell_pv (py "name") (VStr []) (Some text_only_config)
     = Ok false ->
     head (str (VStr [])) = Some DQUOTE).
Proof. intros Hc. specialize (Hc eq_refl). discriminate Hc. Qed.

(** C7, as stated, fails for the default [spell_allow_words]: no file
    matches, and the checker returned is not the new checker, since ["dcs"]
    and ["dcid"] are loaded into it. *)
Lemma get_spell_checker_default_words_counterexample :
  ~ (file_get_matching
       (default _DEFAULT_ALLOWLIST
          (spell_allowlist
             (default get_default_spell_config (Some ConfigMap_new))))
     = [] ->
     get_spell_checker (Some ConfigMap_new) = SpellChecker_new).
Proof.
  intros Hc. assert (Heq := Hc ltac:(reflexivity)). clear Hc.
  assert (Hin : py "dcid" ∈ (get_spell_checker (Some ConfigMap_new) : gset pystr)).
  { apply (bool_decide_unpack _). vm_compute. exact I. }
  rewrite Heq in Hin. revert Hin.
  apply (bool_decide_unpack _). vm_compute. exact I.
Qed.

(** ** The further properties at work in the small world *)

Lemma get_words_app_separator_witness :
  is_AZaz UNDERSCORE = false /\
  get_words (py "pop" ++ UNDERSCORE :: py "count")
  = get_words (py "pop") ++ get_words (py "count").
Proof.
  split; [reflexivity|].
  apply (get_words_app_separator (py "pop") (py "count") UNDERSCORE).
  reflexivity.
Defined.

Lemma get_words_no_letter_witness :
  Forall (fun c => is_AZaz c = false) (py "2020-01") /\
  get_words (py "2020-01") = [].
Proof.
  assert (Hs : Forall (fun c => is_AZaz c = false) (py "2020-01"))
    by (repeat constructor).
  split; [exact Hs|]. apply (get_words_no_letter (py "2020-01") Hs).
Defined.

Lemma get_words_lowercase_witness :
  Forall (fun c => is_az c = true) (py "count") /\
  (2 <= length (py "count"))%nat /\
  get_words (py "count") = [py "count"].
Proof.
  assert (Hs : Forall (fun c => is_az c = true) (py "count"))
    by (repeat constructor).
  assert (Hl : (2 <= length (py "count"))%nat) by (simpl; lia).
  split; [exact Hs|]. split; [exact Hl|].
  apply (get_words_lowercase (py "count") Hs Hl).
Defined.

Lemma get_words_uppercase_witness :
  Forall (fun c => is_AZ c = true) (py "GDP") /\ get_words (py "GDP") = [].
Proof.
  assert (Hs : Forall (fun c => is_AZ c = true) (py "GDP"))
    by (repeat constructor).
  split; [exact Hs|]. apply (get_words_uppercase (py "GDP") Hs).
Defined.

Lemma finditer_letters_witness :
  Forall (fun c => is_AZaz c = true) (py "geoId") /\
  (2%nat ∈ finditer2 (fun c => negb (is_AZ c)) is_AZ09 0 (py "geoId") <->
   exists c1 c2,
     py "geoId" !! 2%nat = Some c1 /\ py "geoId" !! 3%nat = Some c2 /\
     is_az c1 = true /\ is_AZ c2 = true).
Proof.
  assert (Hs : Forall (fun c => is_AZaz c = true) (py "geoId"))
    by (repeat constructor).
  split; [exact Hs|]. apply (finditer_letters (py "geoId") Hs 2%nat).
Defined.

Lemma spell_check_pvs_all_ignored_witness :
  Forall (fun pv => should_ignore_spell_pv pv.1 pv.2 None = Ok true)
         [ (py "url", VStr (py "http://example.org"));
           (py "#note", VStr (py "Populaton")) ] /\
  spell_check_pvs (py "dc/1")
    [ (py "url", VStr (py "http://example.org"));
      (py "#note", VStr (py "Populaton")) ]
    SpellChecker_new None
  = Ok {| misspelled_pvs := []; words_misspelled := ∅; calls := [] |}.
Proof.
  assert (Hall :
    Forall (fun pv => should_ignore_spell_pv pv.1 pv.2 None = Ok true)
           [ (py "url", VStr (py "http://example.org"));
             (py "#note", VStr (py "Populaton")) ])
    by (repeat constructor).
  split; [exact Hall|].
  apply (spell_check_pvs_all_ignored (py "dc/1") _ SpellChecker_new None Hall).
Defined.

Lemma spell_check_pvs_order_witness :
  NoDup (dict_keys demo_node) /\
  exists r,
    spell_check_pvs (py "dc/1") demo_node SpellChecker_new (Some ConfigMap_new)
    = Ok r /\
    sublist (dict_keys (misspelled_pvs r)) (dict_keys demo_node).
Proof.
  split; [exact demo_node_keys|].
  destruct (spell_check_pvs_order (py "dc/1") demo_node SpellChecker_new
              ConfigMap_new demo_node_keys) as [r [Hok [_ Hsub]]].
  exists r. split; [exact Hok | exact Hsub].
Defined.

Lemma demo_nodes_keys : NoDup (dict_keys demo_nodes).
Proof. apply (bool_decide_unpack _). vm_compute. exact I. Qed.

Lemma spell_check_nodes_order_witness :
  NoDup (dict_keys demo_nodes) /\
  spell_check_nodes demo_nodes None (Some SpellChecker_new)
  = Ok (omap (node_entry SpellChecker_new ConfigMap_new) demo_nodes).
Proof.
  split; [exact demo_nodes_keys|].
  apply (spell_check_nodes_order demo_nodes None (Some SpellChecker_new)
           demo_nodes_keys).
Defined.

Lemma demo_mcf_files_keys (f : pystr) :
  f ∈ @file_get_matching demo_collaborators_mcf (py "*.mcf") ->
  NoDup (dict_keys (@load_mcf_nodes demo_collaborators_mcf demo_mcf_files f)).
Proof.
  intros Hf. apply elem_of_cons in Hf as [->|Hf].
  - apply (bool_decide_unpack _). vm_compute. exact I.
  - apply list_elem_of_singleton in Hf as ->.
    apply (bool_decide_unpack _). vm_compute. exact I.
Qed.

Lemma spell_check_mcf_records_witness :
  (forall f,
     f ∈ @file_get_matching demo_collaborators_mcf (py "*.mcf") ->
     NoDup (dict_keys
              (@load_mcf_nodes demo_collaborators_mcf demo_mcf_files f))) /\
  exists res,
    @spell_check_mcf ascii_tables demo_collaborators_mcf demo_spellchecker
      demo_mcf_files (py "*.mcf") None = Ok res.
Proof.
  split; [exact demo_mcf_files_keys|].
  destruct (@spell_check_mcf_records ascii_tables demo_collaborators_mcf
              demo_spellchecker demo_mcf_files (py "*.mcf") None
              demo_mcf_files_keys) as [res [Hok _]].
  exists res. exact Hok.
Defined.

Example spell_check_mcf_demo :
  exists res,
    @spell_check_mcf ascii_tables demo_collaborators_mcf demo_spellchecker
      demo_mcf_files (py "*.mcf") None = Ok res /\
    mcf_records res =
      [ {| err_file := py "a.mcf"; err_dcid := py "dc/1";
           err_property := py "name";
           err_spell_errors := py "Count, Populaton" |};
        {| err_file := py "b.mcf"; err_dcid := py "dc/2";
           err_property := py "name";
           err_spell_errors := py "Count" |} ] /\
    mcf_written res = None.
Proof. eexists. split; [reflexivity|]. split; vm_compute; reflexivity. Qed.

Lemma demo_entry_words (w : pystr) :
  w ∈ ({[ py "Count"; py "Populaton" ]} : gset pystr)
      ∪ {[ py "Count"; py "Populaton" ]} ->
  (COMMA ∉ w) /\ w <> [].
Proof.
  intros Hw.
  assert (Hcases : w = py "Count" \/ w = py "Populaton").
  { rewrite !elem_of_union, !elem_of_singleton in Hw. tauto. }
  destruct Hcases as [-> | ->]; split;
    solve [ apply (bool_decide_unpack _); vm_compute; exact I
          | discriminate ].
Qed.

Lemma error_entry_inj_witness :
  (forall w,
     w ∈ ({[ py "Count"; py "Populaton" ]} : gset pystr)
         ∪ {[ py "Count"; py "Populaton" ]} ->
     (COMMA ∉ w) /\ w <> []) /\
  error_entry {[ py "Count"; py "Populaton" ]}
  = error_entry {[ py "Count"; py "Populaton" ]} /\
  ({[ py "Count"; py "Populaton" ]} : gset pystr)
  = {[ py "Count"; py "Populaton" ]}.
Proof.
  split; [exact demo_entry_words|]. split; [reflexivity|].
  apply (error_entry_inj _ _ demo_entry_words eq_refl).
Defined.

Lemma get_spell_checker_allow_words_string_witness :
  Forall (fun w => COMMA ∉ w) [py "geoId"; py "dcid"] /\
  [py "geoId"; py "dcid"] <> [[]] /\
  get_spell_checker
    (Some (set_allow_words (AllowStr (py "geoId,dcid")) ConfigMap_new))
  = get_spell_checker
      (Some (set_allow_words (AllowList [py "geoId"; py "dcid"]) ConfigMap_new)).
Proof.
  assert (Hws : Forall (fun w => COMMA ∉ w) [py "geoId"; py "dcid"]).
  { repeat constructor; apply (bool_decide_unpack _); vm_compute; exact I. }
  assert (Hne : [py "geoId"; py "dcid"] <> [[]]) by discriminate.
  split; [exact Hws|]. split; [exact Hne|].
  apply (get_spell_checker_allow_words_string ConfigMap_new
           [py "geoId"; py "dcid"] Hws Hne).
Defined.
